(** * Order-line price computation (packages/core/src/entity/order-line/order-line.entity.ts)

    A shallow embedding of the [OrderLine] entity's calculated getters and
    adjustment mutators, and the properties of the price specification
    proved (or refuted) against it.

    Numbers.  The entity computes with JavaScript numbers.  They are
    modelled by [number]: an exact rational, or one of the three special
    values [+Infinity], [-Infinity] and [NaN] that a division by zero
    brings in.  The rounding of binary64, overflow and the sign of zero
    are left out.  On integers below 2^53 the operations [+], [-], [*],
    [Math.round] and [Math.max] are exact in binary64 as they are here;
    a quotient, or a sum of quotients, is exact here where binary64
    rounds it to 53 bits.  So the statements about quotients and their
    sums are written in the operations [div] and [add] themselves and
    say how the code combines them, not what they amount to; where a
    value is given, the numbers involved are integers. *)

From Stdlib Require Import ZArith QArith Qcanon Qround List String Bool Lia Lqa.
Import ListNotations.

(** ** JavaScript numbers *)

Module JS.

Inductive number : Type :=
| Fin (q : Qc)
| PInf
| NInf
| NaN.

Definition Z2Qc (z : Z) : Qc := Q2Qc (inject_Z z).

(** An integer literal or an integer-valued field read as a number. *)
Definition ofZ (z : Z) : number := Fin (Z2Qc z).

Definition is_finite (x : number) : bool :=
  match x with Fin _ => true | _ => false end.

(** Sign of a non-NaN number: [Lt] negative, [Eq] zero, [Gt] positive. *)
Definition sign (x : number) : option comparison :=
  match x with
  | Fin q => Some (q ?= 0)%Qc
  | PInf => Some Gt
  | NInf => Some Lt
  | NaN => None
  end.

Definition sign_mul (a b : comparison) : comparison :=
  match a, b with
  | Eq, _ | _, Eq => Eq
  | Lt, Lt | Gt, Gt => Gt
  | Lt, Gt | Gt, Lt => Lt
  end.

(** The infinity of a given sign; [0 * Infinity] and [0 / 0] are [NaN]. *)
Definition inf_of_sign (c : comparison) : number :=
  match c with Gt => PInf | Lt => NInf | Eq => NaN end.

Definition neg (x : number) : number :=
  match x with
  | Fin q => Fin (- q)
  | PInf => NInf
  | NInf => PInf
  | NaN => NaN
  end.

(** [x + y]; exact, where binary64 rounds the sum of two numbers that
    are not both integers below 2^53. *)
Definition add (x y : number) : number :=
  match x, y with
  | NaN, _ | _, NaN => NaN
  | Fin a, Fin b => Fin (a + b)
  | PInf, NInf | NInf, PInf => NaN
  | PInf, _ | _, PInf => PInf
  | NInf, _ | _, NInf => NInf
  end.

(** [x - y] *)
Definition sub (x y : number) : number := add x (neg y).

(** [x * y] *)
Definition mul (x y : number) : number :=
  match x, y with
  | Fin a, Fin b => Fin (a * b)
  | _, _ =>
      match sign x, sign y with
      | Some a, Some b => inf_of_sign (sign_mul a b)
      | _, _ => NaN
      end
  end.

(** [x / y]: a finite non-zero number over zero is an infinity, [0 / 0] is
    [NaN], a finite number over an infinity is zero.  The quotient of two
    finite numbers is exact, where binary64 rounds it. *)
Definition div (x y : number) : number :=
  match x, y with
  | NaN, _ | _, NaN => NaN
  | Fin a, Fin b =>
      if Qc_eq_dec b 0 then inf_of_sign (a ?= 0)%Qc else Fin (a / b)
  | Fin _, _ => Fin 0
  | _, Fin b =>
      match sign x with
      | Some s => inf_of_sign (sign_mul s (if Qclt_le_dec b 0 then Lt else Gt))
      | None => NaN
      end
  | _, _ => NaN
  end.

(** [x === y] on numbers: [NaN] equals nothing, itself included. *)
Definition strict_eq (x y : number) : bool :=
  match x, y with
  | Fin a, Fin b => if Qc_eq_dec a b then true else false
  | PInf, PInf | NInf, NInf => true
  | _, _ => false
  end.

(** [Math.max(x, y)] *)
Definition Math_max (x y : number) : number :=
  match x, y with
  | NaN, _ | _, NaN => NaN
  | PInf, _ | _, PInf => PInf
  | NInf, z | z, NInf => z
  | Fin a, Fin b => if Qclt_le_dec a b then Fin b else Fin a
  end.

(** The integer nearest to a rational, a tie going up: [floor (q + 1/2)]. *)
Definition round_half_up (q : Qc) : Z := Qfloor (q + (1 # 2)).

(** [Math.round(x)] *)
Definition Math_round (x : number) : number :=
  match x with
  | Fin q => ofZ (round_half_up q)
  | _ => x
  end.

(** What a getter or a method completes with: a value, or a thrown
    exception. *)
Inductive exn : Type := TypeError.

Inductive completion (A : Type) : Type :=
| Normal (a : A)
| Throw (e : exn).
Arguments Normal {A} a.
Arguments Throw {A} e.

End JS.
Import JS.

(** ** Data model *)

(** Modelled from the spec: the [AdjustmentType] enum is declared in the
    generated types, outside this file.  The spec names [PROMOTION] and
    [DISTRIBUTED_ORDER_PROMOTION] and leaves the rest open; [OTHER] stands
    for the remaining members.  Every member is a non-empty string, hence
    truthy. *)
Inductive AdjustmentType : Type :=
| PROMOTION
| DISTRIBUTED_ORDER_PROMOTION
| OTHER.

Definition AdjustmentType_eqb (a b : AdjustmentType) : bool :=
  match a, b with
  | PROMOTION, PROMOTION
  | DISTRIBUTED_ORDER_PROMOTION, DISTRIBUTED_ORDER_PROMOTION
  | OTHER, OTHER => true
  | _, _ => false
  end.

(** Modelled from the spec: the [Adjustment], [TaxLine] and [Discount]
    records of the generated types, with the fields spec section 3 lists.
    An amount is an integer number of minor currency units, a tax rate is
    a percentage. *)
Module Adjustment.
Record t : Type := mk {
  adjustmentSource : string;
  type : AdjustmentType;
  description : string;
  amount : Z
}.
End Adjustment.

Module TaxLine.
Record t : Type := mk {
  description : string;
  taxRate : Qc
}.
End TaxLine.

Module Discount.
Record t : Type := mk {
  adjustmentSource : string;
  type : AdjustmentType;
  description : string;
  amount : number;
  amountWithTax : number
}.
End Discount.

(** The columns of [OrderLine] the price figures read.  [quantity],
    [orderPlacedQuantity] and the prices are integer columns; [adjustments]
    is [None] when the property is absent ([undefined]) on the entity. *)
Record OrderLine : Type := mkOrderLine {
  quantity : Z;
  orderPlacedQuantity : Z;
  initialListPrice : Z;
  listPrice : Z;
  listPriceIncludesTax : bool;
  adjustments : option (list Adjustment.t);
  taxLines : list TaxLine.t
}.

(** ** Helpers imported by the entity *)

(** Modelled from the spec: [netPriceOf] of common/tax-utils is
    [amount / (1 + ratePercent/100)] rounded to the nearest integer minor
    unit, with the one rounding function the entity uses, [Math.round]. *)
Definition netPriceOf (grossPrice taxRate : number) : number :=
  Math_round (div grossPrice (add (ofZ 1) (div taxRate (ofZ 100)))).

(** Modelled from the spec: [grossPriceOf] of common/tax-utils is
    [amount * (1 + ratePercent/100)] rounded to the nearest integer minor
    unit. *)
Definition grossPriceOf (netPrice taxRate : number) : number :=
  Math_round (mul netPrice (add (ofZ 1) (div taxRate (ofZ 100)))).

(** Modelled from the spec: [summate(taxLines, 'taxRate')] of
    common/shared-utils is the sum of the component rates, 0 for none. *)
Definition summate (items : list TaxLine.t) : number :=
  fold_left (fun sum i => add sum (Fin (TaxLine.taxRate i))) items (ofZ 0).

(** ** The calculated getters *)

Section Getters.

Variable this : OrderLine.

Definition taxRate : number := summate (taxLines this).

Definition unitPrice : number :=
  if listPriceIncludesTax this
  then netPriceOf (ofZ (listPrice this)) taxRate
  else ofZ (listPrice this).

Definition unitPriceWithTax : number :=
  if listPriceIncludesTax this
  then ofZ (listPrice this)
  else grossPriceOf (ofZ (listPrice this)) taxRate.

Definition unitPriceChangeSinceAdded : number :=
  let initialPrice :=
    if listPriceIncludesTax this
    then netPriceOf (ofZ (initialListPrice this)) taxRate
    else ofZ (initialListPrice this) in
  sub unitPrice initialPrice.

Definition unitPriceWithTaxChangeSinceAdded : number :=
  let initialPriceWithTax :=
    if listPriceIncludesTax this
    then ofZ (initialListPrice this)
    else grossPriceOf (ofZ (initialListPrice this)) taxRate in
  sub unitPriceWithTax initialPriceWithTax.

(** The filter of [getAdjustmentsTotal]:
    [type ? adjustment.type === type : true]. *)
Definition type_selected (type : option AdjustmentType) (adjustment : Adjustment.t) : bool :=
  match type with
  | Some ty => AdjustmentType_eqb (Adjustment.type adjustment) ty
  | None => true
  end.

(** [adjustment.amount / Math.max(this.orderPlacedQuantity, this.quantity)] *)
Definition unit_share (adjustment : Adjustment.t) : number :=
  div (ofZ (Adjustment.amount adjustment))
      (Math_max (ofZ (orderPlacedQuantity this)) (ofZ (quantity this))).

Definition getAdjustmentsTotal (type : option AdjustmentType) : number :=
  match adjustments this with
  | None => ofZ 0
  | Some adjs =>
      if strict_eq (ofZ (quantity this)) (ofZ 0) then ofZ 0
      else
        Math_round
          (fold_left (fun total a => add total a)
             (map unit_share (filter (type_selected type) adjs))
             (ofZ 0))
  end.

Definition discountedUnitPrice : number :=
  let result := add (ofZ (listPrice this)) (getAdjustmentsTotal (Some PROMOTION)) in
  if listPriceIncludesTax this then netPriceOf result taxRate else result.

Definition discountedUnitPriceWithTax : number :=
  let result := add (ofZ (listPrice this)) (getAdjustmentsTotal (Some PROMOTION)) in
  if listPriceIncludesTax this then result else grossPriceOf result taxRate.

Definition proratedUnitPrice : number :=
  let result := add (ofZ (listPrice this)) (getAdjustmentsTotal None) in
  if listPriceIncludesTax this then netPriceOf result taxRate else result.

Definition proratedUnitPriceWithTax : number :=
  let result := add (ofZ (listPrice this)) (getAdjustmentsTotal None) in
  if listPriceIncludesTax this then result else grossPriceOf result taxRate.

Definition unitTax : number := sub unitPriceWithTax unitPrice.

Definition proratedUnitTax : number := sub proratedUnitPriceWithTax proratedUnitPrice.

Definition linePrice : number := mul unitPrice (ofZ (quantity this)).

Definition linePriceWithTax : number := mul unitPriceWithTax (ofZ (quantity this)).

Definition discountedLinePrice : number := mul discountedUnitPrice (ofZ (quantity this)).

Definition discountedLinePriceWithTax : number :=
  mul discountedUnitPriceWithTax (ofZ (quantity this)).

Definition lineTax : number := mul unitTax (ofZ (quantity this)).

Definition proratedLinePrice : number := mul proratedUnitPrice (ofZ (quantity this)).

Definition proratedLinePriceWithTax : number :=
  mul proratedUnitPriceWithTax (ofZ (quantity this)).

Definition proratedLineTax : number := mul proratedUnitTax (ofZ (quantity this)).

End Getters.

(** ** The discounts getter *)

(** A JavaScript [Map] with string keys: its entries in insertion order,
    one entry per key. *)
Module JSMap.
Section Ops.
Variable V : Type.

Definition t : Type := list (string * V).

Definition empty : t := [].

(** [m.get(k)] *)
Fixpoint get (k : string) (m : t) : option V :=
  match m with
  | [] => None
  | (k', v) :: rest => if String.eqb k' k then Some v else get k rest
  end.

(** [m.set(k, v)]: an existing key keeps its place, a new one goes last. *)
Fixpoint set (k : string) (v : V) (m : t) : t :=
  match m with
  | [] => [(k, v)]
  | (k', v') :: rest =>
      if String.eqb k' k then (k', v) :: rest else (k', v') :: set k v rest
  end.

(** An assignment to fields of the object stored under [k]: the map holds
    a reference to the object, so the entry changes where it stands. *)
Fixpoint mutate (k : string) (f : V -> V) (m : t) : t :=
  match m with
  | [] => []
  | (k', v) :: rest =>
      if String.eqb k' k then (k', f v) :: rest else (k', v) :: mutate k f rest
  end.

(** [[...m.values()]] *)
Definition values (m : t) : list V := map snd m.

Definition keys (m : t) : list string := map fst m.

End Ops.
Arguments empty {V}.
Arguments get {V} k m.
Arguments set {V} k v m.
Arguments mutate {V} k f m.
Arguments values {V} m.
Arguments keys {V} m.
End JSMap.

Section Discounts.

Variable this : OrderLine.

(** [(adjustment.amount / Math.max(this.orderPlacedQuantity, this.quantity)) * this.quantity] *)
Definition unitAdjustmentAmount (adjustment : Adjustment.t) : number :=
  mul (unit_share this adjustment) (ofZ (quantity this)).

Definition discount_amount (adjustment : Adjustment.t) : number :=
  if listPriceIncludesTax this
  then netPriceOf (unitAdjustmentAmount adjustment) (taxRate this)
  else unitAdjustmentAmount adjustment.

Definition discount_amountWithTax (adjustment : Adjustment.t) : number :=
  if listPriceIncludesTax this
  then unitAdjustmentAmount adjustment
  else grossPriceOf (unitAdjustmentAmount adjustment) (taxRate this).

(** One turn of the loop over the adjustments. *)
Definition discounts_step (groupedDiscounts : JSMap.t Discount.t)
    (adjustment : Adjustment.t) : JSMap.t Discount.t :=
  let source := Adjustment.adjustmentSource adjustment in
  let amount := discount_amount adjustment in
  let amountWithTax := discount_amountWithTax adjustment in
  match JSMap.get source groupedDiscounts with
  | Some _ =>
      JSMap.mutate source
        (fun discountGroup =>
           Discount.mk
             (Discount.adjustmentSource discountGroup)
             (Discount.type discountGroup)
             (Discount.description discountGroup)
             (add (Discount.amount discountGroup) amount)
             (add (Discount.amountWithTax discountGroup) amountWithTax))
        groupedDiscounts
  | None =>
      JSMap.set source
        (Discount.mk
           (Adjustment.adjustmentSource adjustment)
           (Adjustment.type adjustment)
           (Adjustment.description adjustment)
           amount
           amountWithTax)
        groupedDiscounts
  end.

(** Iterating over an absent [adjustments] throws a [TypeError]. *)
Definition discounts : completion (list Discount.t) :=
  match adjustments this with
  | None => Throw TypeError
  | Some adjs =>
      Normal (JSMap.values (fold_left discounts_step adjs JSMap.empty))
  end.

End Discounts.

(** ** The adjustment mutators *)

Definition set_adjustments (this : OrderLine) (adjs : list Adjustment.t) : OrderLine :=
  mkOrderLine (quantity this) (orderPlacedQuantity this) (initialListPrice this)
    (listPrice this) (listPriceIncludesTax this) (Some adjs) (taxLines this).

(** [this.adjustments.concat(adjustment)]; on an absent sequence the call
    throws and the line is left as it was. *)
Definition addAdjustment (adjustment : Adjustment.t) (this : OrderLine)
  : completion OrderLine :=
  match adjustments this with
  | None => Throw TypeError
  | Some adjs => Normal (set_adjustments this (adjs ++ [adjustment]))
  end.

Definition clearAdjustments (type : option AdjustmentType) (this : OrderLine)
  : OrderLine :=
  match type with
  | None => set_adjustments this []
  | Some ty =>
      set_adjustments this
        match adjustments this with
        | Some adjs =>
            filter (fun a => negb (AdjustmentType_eqb (Adjustment.type a) ty)) adjs
        | None => []
        end
  end.

(** ** Vocabulary of the statements *)

(** The declared input domain of spec section 3: quantities are
    non-negative integers and tax rates are non-negative percentages. *)
Definition declared_domain (l : OrderLine) : Prop :=
  (0 <= quantity l)%Z /\
  (0 <= orderPlacedQuantity l)%Z /\
  Forall (fun t => (0 <= TaxLine.taxRate t)%Qc) (taxLines l).

(** An exact sum of rationals. *)
Definition Qc_sum (qs : list Qc) : Qc := fold_right Qcplus 0%Qc qs.

(** The factor [1 + rate/100] of the tax conversions. *)
Definition tax_factor (r : Qc) : Qc := (1 + r / Z2Qc 100)%Qc.

(** The aggregate tax rate of a line as an exact rational. *)
Definition rate_total (l : OrderLine) : Qc :=
  Qc_sum (map TaxLine.taxRate (taxLines l)).

(** An integer-valued number: finite, with no fractional part. *)
Definition is_integer (x : number) : Prop := exists z : Z, x = ofZ z.

(** The sum of the selected adjustments' amounts, each divided by
    [max(orderPlacedQuantity, quantity)], in exact arithmetic: what the
    sum of the code is when its quotients are exact. *)
Definition exact_unit_total (l : OrderLine) (type : option AdjustmentType)
    (adjs : list Adjustment.t) : Qc :=
  Qc_sum
    (map (fun a =>
            (Z2Qc (Adjustment.amount a)
             / Z2Qc (Z.max (orderPlacedQuantity l) (quantity l)))%Qc)
       (filter (type_selected type) adjs)).

(** Equality of adjustment types, decided with its proof. *)
Definition AdjustmentType_eq_dec (a b : AdjustmentType) : {a = b} + {a <> b}.
Proof. decide equality. Defined.

(** The adjustments a [type] argument asks for, said apart from the
    filter of the code: every adjustment when no type is given, else the
    adjustments whose type is the given one, in their order. *)
Fixpoint adjustments_of_type (type : option AdjustmentType)
    (adjs : list Adjustment.t) : list Adjustment.t :=
  match adjs with
  | [] => []
  | a :: rest =>
      match type with
      | None => a :: adjustments_of_type type rest
      | Some T =>
          if AdjustmentType_eq_dec (Adjustment.type a) T
          then a :: adjustments_of_type type rest
          else adjustments_of_type type rest
      end
  end.

(** What the spec asks of [clearAdjustments(T)], in its words: going
    through the sequence, an adjustment of type [T] is removed and any
    other is kept, in place. *)
Inductive removes_type (T : AdjustmentType)
  : list Adjustment.t -> list Adjustment.t -> Prop :=
| removes_nil : removes_type T [] []
| removes_drop (a : Adjustment.t) (l r : list Adjustment.t) :
    Adjustment.type a = T -> removes_type T l r -> removes_type T (a :: l) r
| removes_keep (a : Adjustment.t) (l r : list Adjustment.t) :
    Adjustment.type a <> T -> removes_type T l r ->
    removes_type T (a :: l) (a :: r).

(** The keys of a sequence in the order of their first occurrence. *)
Definition first_seen (ks : list string) : list string :=
  fold_left
    (fun seen k => if existsb (String.eqb k) seen then seen else seen ++ [k])
    ks [].

(** A sum of numbers, left to right, as [+=] accumulates it. *)
Definition sum_numbers (xs : list number) : number :=
  fold_left add xs (ofZ 0).

Definition has_source (s : string) (a : Adjustment.t) : bool :=
  String.eqb (Adjustment.adjustmentSource a) s.

(** The discount row of the source [s]: identity, type and description of
    the first adjustment of that source, amounts accumulated over all of
    them in order; [None] when no adjustment has the source. *)
Definition summary (l : OrderLine) (s : string) (adjs : list Adjustment.t)
  : option Discount.t :=
  match filter (has_source s) adjs with
  | [] => None
  | first :: later =>
      Some (Discount.mk
              (Adjustment.adjustmentSource first)
              (Adjustment.type first)
              (Adjustment.description first)
              (fold_left add (map (discount_amount l) later)
                 (discount_amount l first))
              (fold_left add (map (discount_amountWithTax l) later)
                 (discount_amountWithTax l first)))
  end.

(** Two lines that agree on every column but [adjustments]. *)
Definition same_columns_but_adjustments (l l' : OrderLine) : Prop :=
  quantity l = quantity l' /\
  orderPlacedQuantity l = orderPlacedQuantity l' /\
  initialListPrice l = initialListPrice l' /\
  listPrice l = listPrice l' /\
  listPriceIncludesTax l = listPriceIncludesTax l' /\
  taxLines l = taxLines l'.

(** ** The scenarios of spec section 8 *)

Definition P1 : Adjustment.t :=
  Adjustment.mk "P1" PROMOTION "promotion P1" (-200).

Definition vat20 : TaxLine.t := TaxLine.mk "VAT" (Q2Qc 20).

(** Two units at 1000 tax-exclusive, 20% tax, no adjustments. *)
Definition scenario_plain : OrderLine :=
  mkOrderLine 2 2 1000 1000 false (Some []) [vat20].

(** The same with the promotion [P1] of -200 over the two units. *)
Definition scenario_promotion : OrderLine :=
  mkOrderLine 2 2 1000 1000 false (Some [P1]) [vat20].

(** The quantity then reduced to 1, the order placed with 2. *)
Definition scenario_reduced : OrderLine :=
  mkOrderLine 1 2 1000 1000 false (Some [P1]) [vat20].

(** The quantity reduced to 0, the order placed with 2. *)
Definition scenario_emptied : OrderLine :=
  mkOrderLine 0 2 1000 1000 false (Some [P1]) [vat20].

(** A line of an order not yet placed, its quantity at 0. *)
Definition scenario_unplaced_zero : OrderLine :=
  mkOrderLine 0 0 1000 1000 false (Some [P1]) [vat20].

(** A line whose [adjustments] property was never set. *)
Definition scenario_absent : OrderLine :=
  mkOrderLine 2 2 1000 1000 false None [vat20].

(** Two units, two adjustments of -1 each: half a unit per item. *)
Definition scenario_halves : OrderLine :=
  mkOrderLine 2 2 1000 1000 false
    (Some [Adjustment.mk "P1" PROMOTION "promotion P1" (-1);
           Adjustment.mk "O1" DISTRIBUTED_ORDER_PROMOTION "order promotion O1" (-1)])
    [vat20].

(** Two units with three adjustments: the promotion [P1], an order-level
    promotion [O1], and a second record of source ["P1"] that carries
    another type and description. *)
Definition scenario_repeated : OrderLine :=
  mkOrderLine 2 2 1000 1000 false
    (Some [P1;
           Adjustment.mk "O1" DISTRIBUTED_ORDER_PROMOTION "order promotion O1" (-100);
           Adjustment.mk "P1" OTHER "a later record of P1" (-50)])
    [vat20].

(** ** Vocabulary of the further properties *)

(** The figures that read no adjustment. *)
Definition undiscounted_figures (l : OrderLine) : list number :=
  [taxRate l; unitPrice l; unitPriceWithTax l;
   unitPriceChangeSinceAdded l; unitPriceWithTaxChangeSinceAdded l;
   unitTax l; linePrice l; linePriceWithTax l; lineTax l].

(** The figures that read the PROMOTION adjustments only. *)
Definition discounted_figures (l : OrderLine) : list number :=
  [discountedUnitPrice l; discountedUnitPriceWithTax l;
   discountedLinePrice l; discountedLinePriceWithTax l].

(** The figures that read every adjustment. *)
Definition prorated_figures (l : OrderLine) : list number :=
  [proratedUnitPrice l; proratedUnitPriceWithTax l; proratedUnitTax l;
   proratedLinePrice l; proratedLinePriceWithTax l; proratedLineTax l].

(** The per-unit figures, discounted and prorated. *)
Definition adjusted_unit_figures (l : OrderLine) : list number :=
  [discountedUnitPrice l; discountedUnitPriceWithTax l;
   proratedUnitPrice l; proratedUnitPriceWithTax l; proratedUnitTax l].

(** A line with another quantity, every other column kept. *)
Definition set_quantity (l : OrderLine) (q : Z) : OrderLine :=
  mkOrderLine q (orderPlacedQuantity l) (initialListPrice l) (listPrice l)
    (listPriceIncludesTax l) (adjustments l) (taxLines l).

(** The Discount that [discounts] opens for the first adjustment of a
    source. *)
Definition opening_row (l : OrderLine) (a : Adjustment.t) : Discount.t :=
  Discount.mk (Adjustment.adjustmentSource a) (Adjustment.type a)
    (Adjustment.description a) (discount_amount l a) (discount_amountWithTax l a).

(** A Discount with the share of one more adjustment added to it. *)
Definition accumulate (l : OrderLine) (a : Adjustment.t) (d : Discount.t)
  : Discount.t :=
  Discount.mk (Discount.adjustmentSource d) (Discount.type d)
    (Discount.description d)
    (add (Discount.amount d) (discount_amount l a))
    (add (Discount.amountWithTax d) (discount_amountWithTax l a)).

(** Every entry of the map stands under the source of its Discount. *)
Definition keyed (m : JSMap.t Discount.t) : Prop :=
  forall k d, In (k, d) m -> Discount.adjustmentSource d = k.

(** Both numbers are integers and the first is at most the second. *)
Definition int_le (x y : number) : Prop :=
  exists a b : Z, x = ofZ a /\ y = ofZ b /\ (a <= b)%Z.

(** ** Facts about numbers *)

Lemma this_Z2Qc (z : Z) : (this (Z2Qc z) == inject_Z z)%Q.
Proof. unfold Z2Qc, Q2Qc; cbn [this]. apply Qred_correct. Qed.

Lemma Z2Qc_inj (a b : Z) : Z2Qc a = Z2Qc b -> a = b.
Proof.
  unfold Z2Qc. intros H. apply Q2Qc_eq_iff in H.
  unfold Qeq in H; simpl in H. lia.
Qed.

Lemma Z2Qc_add (a b : Z) : (Z2Qc a + Z2Qc b)%Qc = Z2Qc (a + b).
Proof.
  apply Qc_is_canon. unfold Qcplus, Z2Qc, Q2Qc; cbn [this].
  rewrite !Qred_correct. rewrite inject_Z_plus. reflexivity.
Qed.

Lemma Z2Qc_mul (a b : Z) : (Z2Qc a * Z2Qc b)%Qc = Z2Qc (a * b).
Proof.
  apply Qc_is_canon. unfold Qcmult, Z2Qc, Q2Qc; cbn [this].
  rewrite !Qred_correct. rewrite inject_Z_mult. reflexivity.
Qed.

Lemma Z2Qc_opp (a : Z) : (- Z2Qc a)%Qc = Z2Qc (- a).
Proof.
  apply Qc_is_canon. unfold Qcopp, Z2Qc, Q2Qc; cbn [this].
  rewrite !Qred_correct. rewrite inject_Z_opp. reflexivity.
Qed.

Lemma Z2Qc_lt (a b : Z) : (Z2Qc a < Z2Qc b)%Qc <-> (a < b)%Z.
Proof.
  unfold Qclt. rewrite !this_Z2Qc. rewrite <- Zlt_Qlt. reflexivity.
Qed.

Lemma Z2Qc_le (a b : Z) : (Z2Qc a <= Z2Qc b)%Qc <-> (a <= b)%Z.
Proof.
  unfold Qcle. rewrite !this_Z2Qc. rewrite <- Zle_Qle. reflexivity.
Qed.

Lemma add_ofZ (a b : Z) : add (ofZ a) (ofZ b) = ofZ (a + b).
Proof. unfold ofZ; simpl. now rewrite Z2Qc_add. Qed.

Lemma mul_ofZ (a b : Z) : mul (ofZ a) (ofZ b) = ofZ (a * b).
Proof. unfold ofZ; simpl. now rewrite Z2Qc_mul. Qed.

Lemma sub_ofZ (a b : Z) : sub (ofZ a) (ofZ b) = ofZ (a - b).
Proof. unfold sub, ofZ; simpl. now rewrite Z2Qc_opp, Z2Qc_add. Qed.

Lemma Math_max_ofZ (a b : Z) : Math_max (ofZ a) (ofZ b) = ofZ (Z.max a b).
Proof.
  unfold ofZ; simpl. destruct (Qclt_le_dec (Z2Qc a) (Z2Qc b)) as [H|H].
  - apply (proj1 (Z2Qc_lt a b)) in H. now rewrite Z.max_r by lia.
  - apply (proj1 (Z2Qc_le b a)) in H. now rewrite Z.max_l by lia.
Qed.

Lemma strict_eq_ofZ (a b : Z) : strict_eq (ofZ a) (ofZ b) = (a =? b)%Z.
Proof.
  unfold ofZ; simpl. destruct (Qc_eq_dec (Z2Qc a) (Z2Qc b)) as [H|H].
  - apply Z2Qc_inj in H. subst. now rewrite Z.eqb_refl.
  - destruct (Z.eqb_spec a b); [subst; now elim H | reflexivity].
Qed.

Lemma Qfloor_unique (x : Q) (n : Z) :
  (inject_Z n <= x)%Q -> (x < inject_Z n + 1)%Q -> Qfloor x = n.
Proof.
  intros Hlo Hhi.
  assert (Hf := Qfloor_le x). assert (Hc := Qlt_floor x).
  assert (H1 : (inject_Z (Qfloor x) < inject_Z (n + 1))%Q)
    by (rewrite inject_Z_plus; change (inject_Z 1) with 1%Q; lra).
  assert (H2 : (inject_Z n < inject_Z (Qfloor x + 1))%Q) by lra.
  rewrite <- Zlt_Qlt in H1, H2. lia.
Qed.

Lemma round_half_up_spec (q : Qc) :
  (inject_Z (round_half_up q) <= q + (1 # 2))%Q /\
  (q + (1 # 2) < inject_Z (round_half_up q) + 1)%Q.
Proof.
  unfold round_half_up. split.
  - apply Qfloor_le.
  - assert (H := Qlt_floor (q + (1 # 2))).
    rewrite inject_Z_plus in H. exact H.
Qed.

Lemma round_half_up_Z2Qc (z : Z) : round_half_up (Z2Qc z) = z.
Proof.
  unfold round_half_up. rewrite this_Z2Qc.
  apply Qfloor_unique; lra.
Qed.

Lemma Math_round_ofZ (z : Z) : Math_round (ofZ z) = ofZ z.
Proof. unfold ofZ at 1; simpl. now rewrite round_half_up_Z2Qc. Qed.

(** Reading a canonical rational as a plain one, operation by operation. *)
Lemma this_add (a b : Qc) : (this (a + b)%Qc == this a + this b)%Q.
Proof. unfold Qcplus, Q2Qc; cbn [this]. apply Qred_correct. Qed.

Lemma this_mul (a b : Qc) : (this (a * b)%Qc == this a * this b)%Q.
Proof. unfold Qcmult, Q2Qc; cbn [this]. apply Qred_correct. Qed.

Lemma this_opp (a : Qc) : (this (- a)%Qc == - this a)%Q.
Proof. unfold Qcopp, Q2Qc; cbn [this]. apply Qred_correct. Qed.

Lemma this_div (a b : Qc) : (this (a / b)%Qc == this a / this b)%Q.
Proof.
  unfold Qcdiv, Qcinv, Qcmult, Q2Qc; cbn [this].
  rewrite !Qred_correct. reflexivity.
Qed.

Ltac qc2q :=
  unfold Qcle, Qclt in *;
  repeat (rewrite this_add in * || rewrite this_mul in * || rewrite this_opp in *
          || rewrite this_div in * || rewrite this_Z2Qc in *);
  change (this 0%Qc) with 0%Q in *; change (this 1%Qc) with 1%Q in *.

Lemma Z2Qc_neq0 (z : Z) : z <> 0%Z -> Z2Qc z <> 0%Qc.
Proof. intros H E. apply H. now apply Z2Qc_inj. Qed.

Lemma ofZ_inj (a b : Z) : ofZ a = ofZ b -> a = b.
Proof.
  intros H. apply Z2Qc_inj.
  exact (f_equal (fun x => match x with Fin q => q | _ => Z2Qc a end) H).
Qed.

Lemma add_0_l (x : number) : add (ofZ 0) x = x.
Proof.
  destruct x; simpl; try reflexivity.
  f_equal. apply Qcplus_0_l.
Qed.

Lemma add_0_r (x : number) : add x (ofZ 0) = x.
Proof.
  destruct x; simpl; try reflexivity.
  f_equal. apply Qcplus_0_r.
Qed.

Lemma mul_Fin_0 (q : Qc) : mul (Fin q) (ofZ 0) = ofZ 0.
Proof. simpl. unfold ofZ. f_equal. apply Qcmult_0_r. Qed.

Lemma div_Fin (a b : Qc) : b <> 0%Qc -> div (Fin a) (Fin b) = Fin (a / b).
Proof. intros H. simpl. now destruct (Qc_eq_dec b 0). Qed.

Lemma strict_eq_Fin_refl (q : Qc) : strict_eq (Fin q) (Fin q) = true.
Proof. simpl. now destruct (Qc_eq_dec q q). Qed.

Lemma fold_left_add_Fin (qs : list Qc) (a : Qc) :
  fold_left add (map Fin qs) (Fin a) = Fin (a + Qc_sum qs).
Proof.
  revert a. induction qs as [|q qs IH]; intros a; simpl.
  - now rewrite Qcplus_0_r.
  - rewrite IH. f_equal. ring.
Qed.

Lemma summate_Fin (items : list TaxLine.t) :
  summate items = Fin (Qc_sum (map TaxLine.taxRate items)).
Proof.
  unfold summate, ofZ.
  assert (G : forall a, fold_left (fun sum i => add sum (Fin (TaxLine.taxRate i))) items (Fin a)
              = Fin (a + Qc_sum (map TaxLine.taxRate items))).
  { induction items as [|i items IH]; intros a; simpl.
    - now rewrite Qcplus_0_r.
    - rewrite IH. f_equal. ring. }
  rewrite G. f_equal. apply Qcplus_0_l.
Qed.

Lemma Qc_sum_nonneg (qs : list Qc) :
  Forall (fun q => (0 <= q)%Qc) qs -> (0 <= Qc_sum qs)%Qc.
Proof.
  induction 1 as [|q qs Hq _ IH]; simpl.
  - apply Qcle_refl.
  - qc2q. lra.
Qed.

Lemma tax_factor_number (r : Qc) :
  add (ofZ 1) (div (Fin r) (ofZ 100)) = Fin (tax_factor r).
Proof.
  unfold ofZ at 2. rewrite div_Fin by (apply Z2Qc_neq0; discriminate).
  reflexivity.
Qed.

Lemma tax_factor_ge_1 (r : Qc) : (0 <= r)%Qc -> (1 <= tax_factor r)%Qc.
Proof.
  unfold tax_factor. intros H. qc2q.
  assert (0 <= this r / inject_Z 100)%Q.
  { apply Qle_shift_div_l; [reflexivity | lra]. }
  lra.
Qed.

Lemma tax_factor_neq0 (r : Qc) : (0 <= r)%Qc -> tax_factor r <> 0%Qc.
Proof.
  intros H E. apply tax_factor_ge_1 in H. rewrite E in H.
  revert H. unfold Qcle. cbn. unfold Qle; simpl. lia.
Qed.

Lemma netPriceOf_Fin (x r : Qc) :
  tax_factor r <> 0%Qc ->
  netPriceOf (Fin x) (Fin r) = ofZ (round_half_up (x / tax_factor r)).
Proof.
  intros H. unfold netPriceOf. rewrite tax_factor_number, div_Fin by assumption.
  reflexivity.
Qed.

Lemma grossPriceOf_Fin (x r : Qc) :
  grossPriceOf (Fin x) (Fin r) = ofZ (round_half_up (x * tax_factor r)).
Proof.
  unfold grossPriceOf. rewrite tax_factor_number. reflexivity.
Qed.

(** *** Integer-valued numbers *)

Lemma is_integer_ofZ (z : Z) : is_integer (ofZ z).
Proof. now exists z. Qed.

Lemma is_integer_add (x y : number) :
  is_integer x -> is_integer y -> is_integer (add x y).
Proof. intros [a ->] [b ->]. rewrite add_ofZ. apply is_integer_ofZ. Qed.

Lemma is_integer_sub (x y : number) :
  is_integer x -> is_integer y -> is_integer (sub x y).
Proof. intros [a ->] [b ->]. rewrite sub_ofZ. apply is_integer_ofZ. Qed.

Lemma is_integer_mul (x y : number) :
  is_integer x -> is_integer y -> is_integer (mul x y).
Proof. intros [a ->] [b ->]. rewrite mul_ofZ. apply is_integer_ofZ. Qed.

Lemma is_integer_netPriceOf (x : number) (r : Qc) :
  is_integer x -> tax_factor r <> 0%Qc -> is_integer (netPriceOf x (Fin r)).
Proof.
  intros [a ->] H. unfold ofZ. rewrite netPriceOf_Fin by assumption.
  apply is_integer_ofZ.
Qed.

Lemma is_integer_grossPriceOf (x : number) (r : Qc) :
  is_integer x -> is_integer (grossPriceOf x (Fin r)).
Proof.
  intros [a ->]. unfold ofZ. rewrite grossPriceOf_Fin. apply is_integer_ofZ.
Qed.

Lemma add_sub_integer (x y : number) :
  is_integer x -> is_integer y -> add x (sub y x) = y.
Proof.
  intros [a ->] [b ->]. rewrite sub_ofZ, add_ofZ. f_equal. lia.
Qed.

Lemma strict_eq_integer_refl (x : number) :
  is_integer x -> strict_eq x x = true.
Proof. intros [a ->]. apply strict_eq_Fin_refl. Qed.

Lemma mul_integer_0 (x : number) : is_integer x -> mul x (ofZ 0) = ofZ 0.
Proof. intros [a ->]. apply mul_Fin_0. Qed.

Create HintDb price.

#[local] Hint Resolve is_integer_ofZ is_integer_add is_integer_sub is_integer_mul
  is_integer_netPriceOf is_integer_grossPriceOf : price.

(** A finite number over zero: an infinity of its sign, [NaN] for 0 / 0. *)
Lemma div_by_zero (a : Qc) : div (Fin a) (ofZ 0) = inf_of_sign (a ?= 0)%Qc.
Proof.
  unfold ofZ; simpl. destruct (Qc_eq_dec (Z2Qc 0) 0) as [_|H]; [reflexivity|].
  now elim H.
Qed.

(** The declared domain, checked by computation. *)
Lemma declared_domain_intro (l : OrderLine) :
  (0 <=? quantity l)%Z = true ->
  (0 <=? orderPlacedQuantity l)%Z = true ->
  forallb (fun t => Qle_bool 0 (TaxLine.taxRate t)) (taxLines l) = true ->
  declared_domain l.
Proof.
  intros Hq Ho Ht. repeat split; try now apply Z.leb_le.
  apply Forall_forall. intros t Hin.
  rewrite forallb_forall in Ht. apply Qle_bool_iff. now apply Ht.
Defined.

(** *** The adjustment total *)

Section AdjustmentTotal.

Variable l : OrderLine.

Lemma taxRate_Fin : taxRate l = Fin (rate_total l).
Proof. apply summate_Fin. Qed.

Lemma rate_total_nonneg : declared_domain l -> (0 <= rate_total l)%Qc.
Proof.
  intros (_ & _ & H). apply Qc_sum_nonneg.
  induction H; simpl; constructor; assumption.
Qed.

Lemma unit_share_Fin (a : Adjustment.t) :
  Z.max (orderPlacedQuantity l) (quantity l) <> 0%Z ->
  unit_share l a =
  Fin (Z2Qc (Adjustment.amount a)
       / Z2Qc (Z.max (orderPlacedQuantity l) (quantity l)))%Qc.
Proof.
  intros H. unfold unit_share. rewrite Math_max_ofZ.
  unfold ofZ. apply div_Fin. now apply Z2Qc_neq0.
Qed.

Lemma getAdjustmentsTotal_guard (type : option AdjustmentType) :
  quantity l = 0%Z \/ adjustments l = None \/ adjustments l = Some [] ->
  getAdjustmentsTotal l type = ofZ 0.
Proof.
  unfold getAdjustmentsTotal. intros [H | [H | H]].
  - rewrite strict_eq_ofZ, H. simpl. now destruct (adjustments l).
  - now rewrite H.
  - rewrite H. destruct (strict_eq (ofZ (quantity l)) (ofZ 0)); [reflexivity|].
    apply (Math_round_ofZ 0).
Qed.

(** The total in exact arithmetic: its value in the code when every
    quotient is exact. *)
Lemma getAdjustmentsTotal_exact (type : option AdjustmentType)
    (adjs : list Adjustment.t) :
  quantity l <> 0%Z ->
  Z.max (orderPlacedQuantity l) (quantity l) <> 0%Z ->
  adjustments l = Some adjs ->
  getAdjustmentsTotal l type =
  ofZ (round_half_up (exact_unit_total l type adjs)).
Proof.
  intros Hq Hm Hadjs. unfold getAdjustmentsTotal. rewrite Hadjs, strict_eq_ofZ.
  destruct (Z.eqb_spec (quantity l) 0) as [E|_]; [contradiction|].
  rewrite (map_ext _ _ (fun a => unit_share_Fin a Hm)).
  rewrite <- (map_map _ Fin). unfold ofZ at 1.
  rewrite fold_left_add_Fin. unfold exact_unit_total. simpl.
  f_equal. f_equal. apply Qcplus_0_l.
Qed.

Lemma getAdjustmentsTotal_integer (type : option AdjustmentType) :
  declared_domain l -> is_integer (getAdjustmentsTotal l type).
Proof.
  intros (Hq & Ho & _).
  destruct (adjustments l) as [adjs|] eqn:Hadjs.
  - destruct (Z.eq_dec (quantity l) 0) as [E|E].
    + rewrite getAdjustmentsTotal_guard by tauto. apply is_integer_ofZ.
    + rewrite (@getAdjustmentsTotal_exact type adjs) by (assumption || lia).
      apply is_integer_ofZ.
  - rewrite getAdjustmentsTotal_guard by tauto. apply is_integer_ofZ.
Qed.

End AdjustmentTotal.

Lemma taxRate_vat20 (q o i p : Z) (b : bool) (adjs : option (list Adjustment.t)) :
  taxRate (mkOrderLine q o i p b adjs [vat20]) = Fin (Q2Qc 20).
Proof. rewrite taxRate_Fin. f_equal; apply Qc_is_canon; reflexivity. Qed.

(** *** The unit figures are integers on the declared domain *)

Section UnitFigures.

Variable l : OrderLine.
Hypothesis Hdom : declared_domain l.

Lemma tax_factor_ok : tax_factor (rate_total l) <> 0%Qc.
Proof. apply tax_factor_neq0, rate_total_nonneg, Hdom. Qed.

#[local] Hint Resolve tax_factor_ok : price.

Lemma unitPrice_integer : is_integer (unitPrice l).
Proof.
  unfold unitPrice. rewrite taxRate_Fin.
  destruct (listPriceIncludesTax l); auto with price.
Qed.

Lemma unitPriceWithTax_integer : is_integer (unitPriceWithTax l).
Proof.
  unfold unitPriceWithTax. rewrite taxRate_Fin.
  destruct (listPriceIncludesTax l); auto with price.
Qed.

Lemma discountedUnitPrice_integer : is_integer (discountedUnitPrice l).
Proof.
  unfold discountedUnitPrice. rewrite taxRate_Fin.
  pose proof (getAdjustmentsTotal_integer l (Some PROMOTION) Hdom).
  destruct (listPriceIncludesTax l); auto with price.
Qed.

Lemma discountedUnitPriceWithTax_integer : is_integer (discountedUnitPriceWithTax l).
Proof.
  unfold discountedUnitPriceWithTax. rewrite taxRate_Fin.
  pose proof (getAdjustmentsTotal_integer l (Some PROMOTION) Hdom).
  destruct (listPriceIncludesTax l); auto with price.
Qed.

Lemma proratedUnitPrice_integer : is_integer (proratedUnitPrice l).
Proof.
  unfold proratedUnitPrice. rewrite taxRate_Fin.
  pose proof (getAdjustmentsTotal_integer l None Hdom).
  destruct (listPriceIncludesTax l); auto with price.
Qed.

Lemma proratedUnitPriceWithTax_integer : is_integer (proratedUnitPriceWithTax l).
Proof.
  unfold proratedUnitPriceWithTax. rewrite taxRate_Fin.
  pose proof (getAdjustmentsTotal_integer l None Hdom).
  destruct (listPriceIncludesTax l); auto with price.
Qed.

Lemma unitTax_integer : is_integer (unitTax l).
Proof.
  apply is_integer_sub; [apply unitPriceWithTax_integer | apply unitPrice_integer].
Qed.

Lemma proratedUnitTax_integer : is_integer (proratedUnitTax l).
Proof.
  apply is_integer_sub;
    [apply proratedUnitPriceWithTax_integer | apply proratedUnitPrice_integer].
Qed.

End UnitFigures.

(** X18: on the declared input domain every price getter returns an
    integer: no read is [NaN] or an infinity, whether the adjustments are
    present, empty or absent. *)
Lemma price_figures_integer (l : OrderLine) :
  declared_domain l ->
  Forall is_integer
    [unitPrice l; unitPriceWithTax l;
     unitPriceChangeSinceAdded l; unitPriceWithTaxChangeSinceAdded l;
     discountedUnitPrice l; discountedUnitPriceWithTax l;
     proratedUnitPrice l; proratedUnitPriceWithTax l;
     unitTax l; proratedUnitTax l;
     linePrice l; linePriceWithTax l;
     discountedLinePrice l; discountedLinePriceWithTax l;
     lineTax l; proratedLinePrice l; proratedLinePriceWithTax l;
     proratedLineTax l].
Proof.
  intros Hdom.
  pose proof (unitPrice_integer l Hdom).
  pose proof (unitPriceWithTax_integer l).
  pose proof (discountedUnitPrice_integer l Hdom).
  pose proof (discountedUnitPriceWithTax_integer l Hdom).
  pose proof (proratedUnitPrice_integer l Hdom).
  pose proof (proratedUnitPriceWithTax_integer l Hdom).
  pose proof (unitTax_integer l Hdom).
  pose proof (proratedUnitTax_integer l Hdom).
  pose proof (tax_factor_ok l Hdom).
  repeat constructor; trivial;
    unfold unitPriceChangeSinceAdded, unitPriceWithTaxChangeSinceAdded,
      linePrice, linePriceWithTax, discountedLinePrice, discountedLinePriceWithTax,
      lineTax, proratedLinePrice, proratedLinePriceWithTax, proratedLineTax;
    rewrite ?taxRate_Fin; auto with price;
    destruct (listPriceIncludesTax l); auto 6 with price.
Qed.

(** ** Unit and line figures *)

(** C2: on the declared input domain, [unitPrice + unitTax] is exactly
    [unitPriceWithTax], and [proratedUnitPrice + proratedUnitTax] is
    exactly [proratedUnitPriceWithTax], under JavaScript's [===]. *)
Theorem unit_price_plus_tax (l : OrderLine) :
  declared_domain l ->
  strict_eq (add (unitPrice l) (unitTax l)) (unitPriceWithTax l) = true /\
  strict_eq (add (proratedUnitPrice l) (proratedUnitTax l))
            (proratedUnitPriceWithTax l) = true.
Proof.
  intros Hdom. split.
  - unfold unitTax.
    rewrite add_sub_integer
      by ((apply unitPrice_integer || apply unitPriceWithTax_integer); assumption).
    apply strict_eq_integer_refl. now apply unitPriceWithTax_integer.
  - unfold proratedUnitTax.
    rewrite add_sub_integer
      by ((apply proratedUnitPrice_integer || apply proratedUnitPriceWithTax_integer);
          assumption).
    apply strict_eq_integer_refl. now apply proratedUnitPriceWithTax_integer.
Qed.

Lemma unit_price_plus_tax_witness :
  declared_domain scenario_promotion /\
  strict_eq (add (unitPrice scenario_promotion) (unitTax scenario_promotion))
            (unitPriceWithTax scenario_promotion) = true /\
  strict_eq (add (proratedUnitPrice scenario_promotion)
                 (proratedUnitTax scenario_promotion))
            (proratedUnitPriceWithTax scenario_promotion) = true.
Proof.
  assert (D : declared_domain scenario_promotion)
    by (apply declared_domain_intro; reflexivity).
  split; [exact D | exact (unit_price_plus_tax scenario_promotion D)].
Defined.

(** Outside the declared domain the equation can fail: with a negative
    quantity on an unplaced order the adjustments are divided by
    [max(0, -1) = 0], the prorated prices are [-Infinity] and their
    difference is [NaN]. *)
Example unit_price_plus_tax_negative_quantity :
  let l := mkOrderLine (-1) 0 1000 1000 false (Some [P1]) [vat20] in
  proratedUnitPrice l = NInf /\
  proratedUnitPriceWithTax l = NInf /\
  proratedUnitTax l = NaN /\
  strict_eq (add (proratedUnitPrice l) (proratedUnitTax l))
            (proratedUnitPriceWithTax l) = false.
Proof.
  cbv zeta.
  set (l := mkOrderLine (-1) 0 1000 1000 false (Some [P1]) [vat20]).
  assert (T : getAdjustmentsTotal l None = NInf).
  { unfold getAdjustmentsTotal. cbn [adjustments l].
    rewrite strict_eq_ofZ. cbn [quantity l Z.eqb filter type_selected map fold_left].
    unfold unit_share.
    cbn [orderPlacedQuantity quantity l Adjustment.amount P1].
    rewrite Math_max_ofZ. cbn [Z.max Z.compare].
    unfold ofZ at 2. rewrite div_by_zero. reflexivity. }
  assert (P : proratedUnitPrice l = NInf).
  { unfold proratedUnitPrice. rewrite T. reflexivity. }
  assert (W : proratedUnitPriceWithTax l = NInf).
  { unfold proratedUnitPriceWithTax. rewrite T. cbn [listPriceIncludesTax l add ofZ].
    unfold l. rewrite taxRate_vat20. unfold grossPriceOf.
    rewrite tax_factor_number. reflexivity. }
  unfold proratedUnitTax. rewrite P, W. repeat split.
Qed.

(** C3: every line figure is its unit figure multiplied by [quantity];
    on the declared input domain a line of quantity 0 has [linePrice],
    [discountedLinePrice], [proratedLinePrice] and [lineTax] equal to 0. *)
Theorem line_figures_scale_with_quantity (l : OrderLine) :
  (linePrice l = mul (unitPrice l) (ofZ (quantity l)) /\
   linePriceWithTax l = mul (unitPriceWithTax l) (ofZ (quantity l)) /\
   discountedLinePrice l = mul (discountedUnitPrice l) (ofZ (quantity l)) /\
   discountedLinePriceWithTax l =
     mul (discountedUnitPriceWithTax l) (ofZ (quantity l)) /\
   proratedLinePrice l = mul (proratedUnitPrice l) (ofZ (quantity l)) /\
   proratedLinePriceWithTax l =
     mul (proratedUnitPriceWithTax l) (ofZ (quantity l)) /\
   lineTax l = mul (unitTax l) (ofZ (quantity l)) /\
   proratedLineTax l = mul (proratedUnitTax l) (ofZ (quantity l))) /\
  (declared_domain l -> quantity l = 0%Z ->
   linePrice l = ofZ 0 /\
   discountedLinePrice l = ofZ 0 /\
   proratedLinePrice l = ofZ 0 /\
   lineTax l = ofZ 0).
Proof.
  split; [repeat split|].
  intros Hdom Hq.
  unfold linePrice, discountedLinePrice, proratedLinePrice, lineTax.
  rewrite Hq. repeat split; apply mul_integer_0.
  - now apply unitPrice_integer.
  - now apply discountedUnitPrice_integer.
  - now apply proratedUnitPrice_integer.
  - now apply unitTax_integer.
Qed.

Lemma line_figures_scale_with_quantity_witness :
  declared_domain scenario_emptied /\
  quantity scenario_emptied = 0%Z /\
  linePrice scenario_emptied = ofZ 0 /\
  discountedLinePrice scenario_emptied = ofZ 0 /\
  proratedLinePrice scenario_emptied = ofZ 0 /\
  lineTax scenario_emptied = ofZ 0.
Proof.
  assert (D : declared_domain scenario_emptied)
    by (apply declared_domain_intro; reflexivity).
  split; [exact D|]. split; [reflexivity|].
  exact (proj2 (line_figures_scale_with_quantity scenario_emptied) D eq_refl).
Defined.

Lemma adjustments_of_type_filter (type : option AdjustmentType)
    (adjs : list Adjustment.t) :
  filter (type_selected type) adjs = adjustments_of_type type adjs.
Proof.
  induction adjs as [|a adjs IH]; simpl; [reflexivity|].
  destruct type as [T|]; simpl.
  - destruct (AdjustmentType_eq_dec (Adjustment.type a) T) as [E|E].
    + rewrite E. replace (AdjustmentType_eqb T T) with true by now destruct T.
      now rewrite IH.
    + replace (AdjustmentType_eqb (Adjustment.type a) T) with false
        by (destruct (Adjustment.type a), T; try reflexivity; now elim E).
      exact IH.
  - now rewrite IH.
Qed.

(** Past its guard, [getAdjustmentsTotal] rounds one sum: the quotients of
    the adjustments asked for, added left to right from 0. *)
Lemma getAdjustmentsTotal_one_rounding (l : OrderLine)
    (type : option AdjustmentType) (adjs : list Adjustment.t) :
  quantity l <> 0%Z ->
  adjustments l = Some adjs ->
  getAdjustmentsTotal l type =
  Math_round
    (sum_numbers
       (map (fun a =>
               div (ofZ (Adjustment.amount a))
                   (ofZ (Z.max (orderPlacedQuantity l) (quantity l))))
          (adjustments_of_type type adjs))).
Proof.
  intros Hq Hadjs. unfold getAdjustmentsTotal, sum_numbers.
  rewrite Hadjs, strict_eq_ofZ.
  destruct (Z.eqb_spec (quantity l) 0) as [E|_]; [contradiction|].
  rewrite adjustments_of_type_filter. f_equal. f_equal.
  apply map_ext. intros a. unfold unit_share. now rewrite Math_max_ofZ.
Qed.

(** C6: with [quantity > 0] and a non-empty adjustment list, the
    adjustment total, for a type or for none, is [Math.round] applied
    once to the sum of the quotients
    [amount / max(orderPlacedQuantity, quantity)] of the adjustments of
    that type (of all of them for no type), the quotients added
    unrounded, in the division and addition of the code. *)
Theorem adjustment_total_rounds_once (l : OrderLine)
    (type : option AdjustmentType) (adjs : list Adjustment.t) :
  (0 < quantity l)%Z ->
  adjustments l = Some adjs ->
  adjs <> [] ->
  getAdjustmentsTotal l type =
  Math_round
    (sum_numbers
       (map (fun a =>
               div (ofZ (Adjustment.amount a))
                   (ofZ (Z.max (orderPlacedQuantity l) (quantity l))))
          (adjustments_of_type type adjs))).
Proof.
  intros Hq Hadjs _. apply getAdjustmentsTotal_one_rounding; [lia | assumption].
Qed.

(** Two halves make a unit when they are added before the rounding, and
    nothing when each is rounded first. *)
Lemma adjustment_total_rounds_once_witness :
  (0 < quantity scenario_halves)%Z /\
  getAdjustmentsTotal scenario_halves None = ofZ (-1) /\
  sum_numbers
    (map (fun a => Math_round (div (ofZ (Adjustment.amount a)) (ofZ 2)))
       [Adjustment.mk "P1" PROMOTION "promotion P1" (-1);
        Adjustment.mk "O1" DISTRIBUTED_ORDER_PROMOTION "order promotion O1" (-1)])
  = ofZ 0.
Proof.
  split; [reflexivity|].
  assert (H : div (ofZ (-1)) (ofZ 2) = Fin (Z2Qc (-1) / Z2Qc 2)%Qc)
    by (apply div_Fin; discriminate).
  split.
  - rewrite (adjustment_total_rounds_once scenario_halves None
               [Adjustment.mk "P1" PROMOTION "promotion P1" (-1);
                Adjustment.mk "O1" DISTRIBUTED_ORDER_PROMOTION
                  "order promotion O1" (-1)]);
      [| reflexivity | reflexivity | discriminate].
    unfold sum_numbers.
    cbn [adjustments_of_type map fold_left Adjustment.amount
         orderPlacedQuantity quantity scenario_halves Z.max Z.compare
         Pos.compare Pos.compare_cont].
    rewrite H, add_0_l. reflexivity.
  - unfold sum_numbers. cbn [map fold_left Adjustment.amount].
    rewrite H, add_0_l. reflexivity.
Defined.

(** C1, amended: for every line with [quantity > 0] and at least one
    adjustment, the per-unit adjustment total that [discountedUnitPrice]
    (PROMOTION adjustments) and [proratedUnitPrice] (all adjustments) add
    to [listPrice] is the rounded sum of the amounts each divided by
    [max(orderPlacedQuantity, quantity)], not by [quantity];
    on the line with listPrice 1000 tax-exclusive, one PROMOTION of -200
    recorded against 2 units and the quantity reduced to 1, the per-unit
    effect is -100 and [discountedLinePrice] is 900, where a division by
    [quantity] would have taken off 200. *)
Theorem adjustment_total_divides_by_max :
  (forall (l : OrderLine) (adjs : list Adjustment.t),
     (0 < quantity l)%Z ->
     adjustments l = Some adjs ->
     adjs <> [] ->
     let quotient a :=
       div (ofZ (Adjustment.amount a))
           (ofZ (Z.max (orderPlacedQuantity l) (quantity l))) in
     let promotions :=
       Math_round
         (sum_numbers (map quotient (adjustments_of_type (Some PROMOTION) adjs))) in
     let all := Math_round (sum_numbers (map quotient adjs)) in
     getAdjustmentsTotal l (Some PROMOTION) = promotions /\
     getAdjustmentsTotal l None = all /\
     discountedUnitPrice l =
       (if listPriceIncludesTax l
        then netPriceOf (add (ofZ (listPrice l)) promotions) (taxRate l)
        else add (ofZ (listPrice l)) promotions) /\
     proratedUnitPrice l =
       (if listPriceIncludesTax l
        then netPriceOf (add (ofZ (listPrice l)) all) (taxRate l)
        else add (ofZ (listPrice l)) all)) /\
  (getAdjustmentsTotal scenario_reduced (Some PROMOTION) = ofZ (-100) /\
   discountedLinePrice scenario_reduced = ofZ 900 /\
   Math_round (div (ofZ (Adjustment.amount P1)) (ofZ (quantity scenario_reduced)))
   = ofZ (-200)).
Proof.
  split.
  - intros l adjs Hq Hadjs Hne quotient promotions all.
    assert (Hall : adjustments_of_type None adjs = adjs)
      by (clear; induction adjs as [|a adjs IH]; simpl; [|rewrite IH]; reflexivity).
    unfold discountedUnitPrice, proratedUnitPrice.
    rewrite !(getAdjustmentsTotal_one_rounding l _ adjs) by (assumption || lia).
    rewrite Hall. repeat split.
  - assert (T : getAdjustmentsTotal scenario_reduced (Some PROMOTION) = ofZ (-100)).
    { apply (getAdjustmentsTotal_exact scenario_reduced (Some PROMOTION) [P1]);
        [discriminate | discriminate | reflexivity]. }
    split; [exact T|]. split.
    + unfold discountedLinePrice, discountedUnitPrice. rewrite T.
      cbn [listPriceIncludesTax listPrice quantity scenario_reduced].
      rewrite add_ofZ, mul_ofZ. reflexivity.
    + cbn [Adjustment.amount P1 quantity scenario_reduced].
      unfold ofZ at 1 2. rewrite div_Fin by discriminate. reflexivity.
Qed.

Lemma adjustment_total_divides_by_max_witness :
  (0 < quantity scenario_reduced)%Z /\
  getAdjustmentsTotal scenario_reduced (Some PROMOTION) = ofZ (-100) /\
  discountedUnitPrice scenario_reduced = ofZ 900.
Proof.
  split; [reflexivity|].
  destruct (proj1 adjustment_total_divides_by_max scenario_reduced [P1])
    as (HP & _ & HD & _); [reflexivity | reflexivity | discriminate |].
  assert (E : Math_round (sum_numbers [div (ofZ (-200)) (ofZ 2)]) = ofZ (-100)).
  { unfold sum_numbers. cbn [fold_left]. rewrite add_0_l.
    unfold ofZ at 1 2. rewrite div_Fin by discriminate. reflexivity. }
  split.
  - rewrite HP. exact E.
  - rewrite HD. cbn [listPriceIncludesTax listPrice scenario_reduced].
    change (add (ofZ 1000) (Math_round (sum_numbers [div (ofZ (-200)) (ofZ 2)]))
            = ofZ 900).
    rewrite E. apply (add_ofZ 1000 (-100)).
Defined.

(** C1 as stated fails on a line whose quantity is 0: the guard of
    [getAdjustmentsTotal] answers 0 and divides nothing, where the amount
    over [max(2, 0)] is -100. *)
Lemma adjustment_total_zero_quantity_counterexample :
  ~ (forall (l : OrderLine) (adjs : list Adjustment.t),
       adjustments l = Some adjs ->
       adjs <> [] ->
       getAdjustmentsTotal l (Some PROMOTION) =
       Math_round
         (sum_numbers
            (map (fun a =>
                    div (ofZ (Adjustment.amount a))
                        (ofZ (Z.max (orderPlacedQuantity l) (quantity l))))
               (adjustments_of_type (Some PROMOTION) adjs)))).
Proof.
  intros H.
  specialize (H scenario_emptied [P1] eq_refl ltac:(discriminate)).
  rewrite getAdjustmentsTotal_guard in H by (left; reflexivity).
  unfold sum_numbers in H.
  cbn [adjustments_of_type map fold_left Adjustment.amount Adjustment.type P1
       orderPlacedQuantity quantity scenario_emptied Z.max Z.compare] in H.
  destruct (AdjustmentType_eq_dec PROMOTION PROMOTION) as [_|E]; [|now elim E].
  cbn [map fold_left] in H. rewrite add_0_l in H.
  unfold ofZ at 2 3 in H. rewrite div_Fin in H by discriminate.
  apply ofZ_inj in H. vm_compute in H. discriminate H.
Qed.

(** *** The tax round trip *)

(** Whatever the rule for ties, rounding to a nearest integer makes the
    round trip exact: the error of the first rounding, at most 1/2, is
    divided by a factor of at least 1 before the second. *)
Section NearestRounding.

Variable rnd : Q -> Z.
Hypothesis rnd_nearest :
  forall q : Q,
    (inject_Z (rnd q) - (1 # 2) <= q)%Q /\ (q <= inject_Z (rnd q) + (1 # 2))%Q.

Lemma integers_half_apart (a b : Z) :
  (inject_Z a - (1 # 2) <= inject_Z b)%Q ->
  (inject_Z b <= inject_Z a + (1 # 2))%Q ->
  a = b.
Proof.
  intros Hlo Hhi.
  assert (H1 : (inject_Z a < inject_Z (b + 1))%Q)
    by (rewrite inject_Z_plus; change (inject_Z 1) with 1%Q; lra).
  assert (H2 : (inject_Z b < inject_Z (a + 1))%Q)
    by (rewrite inject_Z_plus; change (inject_Z 1) with 1%Q; lra).
  rewrite <- Zlt_Qlt in H1, H2. lia.
Qed.

Lemma nearest_round_trip (x : Z) (k : Q) :
  (1 <= k)%Q ->
  rnd (inject_Z (rnd (inject_Z x * k)) / k) = x.
Proof.
  intros Hk.
  destruct (rnd_nearest (inject_Z x * k)) as [Glo Ghi].
  set (g := rnd (inject_Z x * k)) in *.
  destruct (rnd_nearest (inject_Z g / k)) as [Nlo Nhi].
  set (n := rnd (inject_Z g / k)) in *.
  apply Qle_lteq in Hk. destruct Hk as [Hk | Hk].
  - assert (Hlo : (inject_Z x - (1 # 2) < inject_Z g / k)%Q).
    { apply Qlt_shift_div_l; [lra|].
      setoid_replace ((inject_Z x - (1 # 2)) * k)%Q
        with (inject_Z x * k - (1 # 2) * k)%Q by ring.
      lra. }
    assert (Hhi : (inject_Z g / k < inject_Z x + (1 # 2))%Q).
    { apply Qlt_shift_div_r; [lra|].
      setoid_replace ((inject_Z x + (1 # 2)) * k)%Q
        with (inject_Z x * k + (1 # 2) * k)%Q by ring.
      lra. }
    assert (H1 : (inject_Z n < inject_Z (x + 1))%Q)
      by (rewrite inject_Z_plus; change (inject_Z 1) with 1%Q; lra).
    assert (H2 : (inject_Z x < inject_Z (n + 1))%Q)
      by (rewrite inject_Z_plus; change (inject_Z 1) with 1%Q; lra).
    rewrite <- Zlt_Qlt in H1, H2. lia.
  - assert (E : (inject_Z g / k == inject_Z g)%Q)
      by (rewrite <- Hk; field).
    rewrite E in Nlo, Nhi. rewrite <- Hk in Glo, Ghi.
    assert (Hg : g = x) by (apply integers_half_apart; lra).
    rewrite Hg in Nlo, Nhi. now apply integers_half_apart.
Qed.

End NearestRounding.

Lemma round_half_up_nearest (q : Q) :
  (inject_Z (Qfloor (q + (1 # 2))) - (1 # 2) <= q)%Q /\
  (q <= inject_Z (Qfloor (q + (1 # 2))) + (1 # 2))%Q.
Proof.
  assert (Hlo := Qfloor_le (q + (1 # 2))).
  assert (Hhi := Qlt_floor (q + (1 # 2))).
  rewrite inject_Z_plus in Hhi. change (inject_Z 1) with 1%Q in Hhi.
  split; lra.
Qed.

Lemma net_of_gross_exact (x : Z) (r : Qc) :
  (0 <= r)%Qc ->
  netPriceOf (grossPriceOf (ofZ x) (Fin r)) (Fin r) = ofZ x.
Proof.
  intros Hr. unfold ofZ at 1. rewrite grossPriceOf_Fin.
  unfold ofZ at 1. rewrite netPriceOf_Fin by now apply tax_factor_neq0.
  f_equal.
  pose proof (tax_factor_ge_1 r Hr) as Hk.
  unfold round_half_up. qc2q.
  apply (nearest_round_trip (fun q => Qfloor (q + (1 # 2))) round_half_up_nearest).
  exact Hk.
Qed.

(** C9: for a non-negative integer amount [x] and a tax rate [r >= 0],
    [netPriceOf (grossPriceOf x r) r] is an integer within one minor unit
    of [x]. *)
Theorem net_of_gross_within_one (x : Z) (r : Qc) :
  (0 <= x)%Z ->
  (0 <= r)%Qc ->
  exists y : Z,
    netPriceOf (grossPriceOf (ofZ x) (Fin r)) (Fin r) = ofZ y /\
    (Z.abs (y - x) <= 1)%Z.
Proof.
  intros _ Hr. exists x. split.
  - now apply net_of_gross_exact.
  - lia.
Qed.

Lemma net_of_gross_within_one_witness :
  (0 <= 999)%Z /\
  (0 <= Q2Qc (15 # 2))%Qc /\
  exists y : Z,
    netPriceOf (grossPriceOf (ofZ 999) (Fin (Q2Qc (15 # 2)))) (Fin (Q2Qc (15 # 2)))
    = ofZ y /\
    (Z.abs (y - 999) <= 1)%Z.
Proof.
  split; [discriminate|]. split; [discriminate|].
  apply (net_of_gross_within_one 999 (Q2Qc (15 # 2))); discriminate.
Defined.

(** *** The mutators *)

Lemma AdjustmentType_eqb_eq (a b : AdjustmentType) :
  AdjustmentType_eqb a b = true <-> a = b.
Proof. destruct a, b; simpl; split; congruence. Qed.

Lemma AdjustmentType_eqb_refl (a : AdjustmentType) : AdjustmentType_eqb a a = true.
Proof. now apply AdjustmentType_eqb_eq. Qed.

Lemma filter_removes_type (T : AdjustmentType) (adjs : list Adjustment.t) :
  removes_type T adjs
    (filter (fun a => negb (AdjustmentType_eqb (Adjustment.type a) T)) adjs).
Proof.
  induction adjs as [|a adjs IH]; simpl.
  - constructor.
  - destruct (AdjustmentType_eqb (Adjustment.type a) T) eqn:E; simpl.
    + apply removes_drop; [now apply AdjustmentType_eqb_eq | exact IH].
    + apply removes_keep; [|exact IH].
      intros H. apply AdjustmentType_eqb_eq in H. congruence.
Qed.

Lemma removes_type_functional (T : AdjustmentType) (adjs r1 r2 : list Adjustment.t) :
  removes_type T adjs r1 -> removes_type T adjs r2 -> r1 = r2.
Proof.
  intros H1. revert r2.
  induction H1 as [|a l r Ha _ IH|a l r Ha _ IH]; intros r2 H2;
    inversion H2; subst; try contradiction; try reflexivity.
  - now apply IH.
  - f_equal. now apply IH.
Qed.

(** C7: [clearAdjustments()] leaves the empty sequence;
    [clearAdjustments(T)] removes exactly the adjustments of type [T] and
    keeps the others in their order; clearing the same type twice is
    clearing it once; both forms succeed on an empty or absent sequence. *)
Theorem clearAdjustments_spec (l : OrderLine) (T : AdjustmentType) :
  adjustments (clearAdjustments None l) = Some [] /\
  (forall adjs : list Adjustment.t,
     adjustments l = Some adjs ->
     exists rest : list Adjustment.t,
       adjustments (clearAdjustments (Some T) l) = Some rest /\
       removes_type T adjs rest /\
       (forall a, In a rest <-> In a adjs /\ Adjustment.type a <> T)) /\
  clearAdjustments (Some T) (clearAdjustments (Some T) l)
    = clearAdjustments (Some T) l /\
  (adjustments l = None \/ adjustments l = Some [] ->
   adjustments (clearAdjustments None l) = Some [] /\
   adjustments (clearAdjustments (Some T) l) = Some []).
Proof.
  repeat split.
  - intros adjs Hadjs. eexists. split; [|split].
    + simpl. rewrite Hadjs. reflexivity.
    + apply filter_removes_type.
    + intros a. rewrite filter_In. split; intros [Hin Ht]; split; trivial.
      * intros E. rewrite E, AdjustmentType_eqb_refl in Ht. discriminate.
      * destruct (AdjustmentType_eqb (Adjustment.type a) T) eqn:E; [|reflexivity].
        apply AdjustmentType_eqb_eq in E. contradiction.
  - unfold clearAdjustments, set_adjustments. simpl. f_equal. f_equal.
    destruct (adjustments l) as [adjs|]; [|reflexivity].
    induction adjs as [|a adjs IH]; simpl; [reflexivity|].
    destruct (AdjustmentType_eqb (Adjustment.type a) T) eqn:E; simpl.
    + exact IH.
    + rewrite E. simpl. now rewrite IH.
  - destruct H as [H | H]; simpl; rewrite H; reflexivity.
Qed.

Lemma clearAdjustments_spec_witness :
  adjustments scenario_halves
  = Some [Adjustment.mk "P1" PROMOTION "promotion P1" (-1);
          Adjustment.mk "O1" DISTRIBUTED_ORDER_PROMOTION "order promotion O1" (-1)] /\
  (exists rest : list Adjustment.t,
     adjustments (clearAdjustments (Some PROMOTION) scenario_halves) = Some rest /\
     forall a, In a rest <->
               In a [Adjustment.mk "P1" PROMOTION "promotion P1" (-1);
                     Adjustment.mk "O1" DISTRIBUTED_ORDER_PROMOTION
                       "order promotion O1" (-1)] /\
               Adjustment.type a <> PROMOTION) /\
  adjustments scenario_absent = None /\
  adjustments (clearAdjustments (Some PROMOTION) scenario_absent) = Some [].
Proof.
  split; [reflexivity|]. split; [|split; [reflexivity|]].
  - destruct (proj1 (proj2 (clearAdjustments_spec scenario_halves PROMOTION))
                _ eq_refl) as (rest & Hrest & _ & Hin).
    exists rest. split; [exact Hrest | exact Hin].
  - apply (proj2 (proj2 (proj2 (clearAdjustments_spec scenario_absent PROMOTION)))).
    left. reflexivity.
Defined.

(** *** Maps in insertion order *)

Section MapFacts.

Variable V : Type.
Implicit Types (m : JSMap.t V) (k : string) (v : V).

Lemma get_set k k' v m :
  JSMap.get k (JSMap.set k' v m) = if String.eqb k' k then Some v else JSMap.get k m.
Proof.
  induction m as [|[k0 v0] m IH]; simpl.
  - reflexivity.
  - destruct (String.eqb_spec k0 k') as [->|Hne]; simpl.
    + destruct (String.eqb k' k); reflexivity.
    + rewrite IH. destruct (String.eqb_spec k0 k) as [->|Hne']; [|reflexivity].
      destruct (String.eqb_spec k' k) as [->|_]; [contradiction | reflexivity].
Qed.

Lemma get_mutate k k' (f : V -> V) m :
  JSMap.get k (JSMap.mutate k' f m) =
  if String.eqb k' k then option_map f (JSMap.get k m) else JSMap.get k m.
Proof.
  induction m as [|[k0 v0] m IH]; simpl.
  - now destruct (String.eqb k' k).
  - destruct (String.eqb_spec k0 k') as [->|Hne]; simpl.
    + destruct (String.eqb k' k); reflexivity.
    + rewrite IH. destruct (String.eqb_spec k0 k) as [->|Hne']; [|reflexivity].
      destruct (String.eqb_spec k' k) as [->|_]; [contradiction | reflexivity].
Qed.

Lemma keys_mutate k (f : V -> V) m :
  JSMap.keys (JSMap.mutate k f m) = JSMap.keys m.
Proof.
  unfold JSMap.keys. induction m as [|[k0 v0] m IH]; simpl; [reflexivity|].
  destruct (String.eqb k0 k); simpl; [reflexivity | now rewrite IH].
Qed.

Lemma keys_set_new k v m :
  JSMap.get k m = None -> JSMap.keys (JSMap.set k v m) = JSMap.keys m ++ [k].
Proof.
  unfold JSMap.keys. induction m as [|[k0 v0] m IH]; simpl; [reflexivity|].
  destruct (String.eqb k0 k); [discriminate|]. intros H. simpl. now rewrite IH.
Qed.

Lemma get_None_keys k m :
  JSMap.get k m = None <-> existsb (String.eqb k) (JSMap.keys m) = false.
Proof.
  unfold JSMap.keys. induction m as [|[k0 v0] m IH]; simpl; [tauto|].
  rewrite (String.eqb_sym k k0).
  destruct (String.eqb k0 k); simpl; [split; discriminate | exact IH].
Qed.

Lemma get_In_NoDup k v m :
  NoDup (JSMap.keys m) -> In (k, v) m -> JSMap.get k m = Some v.
Proof.
  unfold JSMap.keys. induction m as [|[k0 v0] m IH]; simpl; [tauto|].
  intros Hnd [E | Hin].
  - injection E as -> ->. now rewrite String.eqb_refl.
  - inversion Hnd as [|? ? Hnot Hnd']; subst.
    destruct (String.eqb_spec k0 k) as [->|_]; [|now apply IH].
    elim Hnot. change k with (fst (k, v)). now apply in_map.
Qed.

End MapFacts.

(** *** First-seen order *)

Lemma first_seen_snoc (ks : list string) (k : string) :
  first_seen (ks ++ [k]) =
  if existsb (String.eqb k) (first_seen ks) then first_seen ks
  else first_seen ks ++ [k].
Proof. unfold first_seen. now rewrite fold_left_app. Qed.

Lemma existsb_eqb_In (k : string) (ks : list string) :
  existsb (String.eqb k) ks = true <-> In k ks.
Proof.
  rewrite existsb_exists. split.
  - intros (x & Hin & E). apply String.eqb_eq in E. now subst.
  - intros Hin. exists k. split; [assumption | apply String.eqb_refl].
Qed.

Lemma first_seen_In (ks : list string) (k : string) :
  In k (first_seen ks) <-> In k ks.
Proof.
  induction ks as [|k0 ks IH] using rev_ind; [reflexivity|].
  rewrite first_seen_snoc, in_app_iff.
  destruct (existsb (String.eqb k0) (first_seen ks)) eqn:E.
  - apply existsb_eqb_In in E. rewrite IH. simpl. split; [tauto|].
    intros [H | [-> | []]]; [assumption | now apply IH].
  - rewrite in_app_iff, IH. reflexivity.
Qed.

Lemma first_seen_NoDup (ks : list string) : NoDup (first_seen ks).
Proof.
  induction ks as [|k0 ks IH] using rev_ind; [constructor|].
  rewrite first_seen_snoc.
  destruct (existsb (String.eqb k0) (first_seen ks)) eqn:E; [assumption|].
  apply NoDup_app; [assumption | repeat constructor; intros [] | ].
  intros x Hin [<- | []].
  apply existsb_eqb_In in Hin. congruence.
Qed.

(** *** The grouping loop *)

Section GroupingLoop.

Variable l : OrderLine.

Lemma filter_snoc {A : Type} (p : A -> bool) (xs : list A) (x : A) :
  filter p (xs ++ [x]) = filter p xs ++ (if p x then [x] else []).
Proof. rewrite filter_app. simpl. now destruct (p x). Qed.

Lemma fold_left_snoc {A B : Type} (f : A -> B -> A) (xs : list B) (x : B) (a : A) :
  fold_left f (xs ++ [x]) a = f (fold_left f xs a) x.
Proof. now rewrite fold_left_app. Qed.

Lemma summary_snoc_other (s : string) (pre : list Adjustment.t) (a : Adjustment.t) :
  has_source s a = false -> summary l s (pre ++ [a]) = summary l s pre.
Proof.
  intros H. unfold summary. rewrite filter_snoc, H. now rewrite app_nil_r.
Qed.

Lemma summary_snoc_first (pre : list Adjustment.t) (a : Adjustment.t) :
  summary l (Adjustment.adjustmentSource a) pre = None ->
  summary l (Adjustment.adjustmentSource a) (pre ++ [a]) =
  Some (Discount.mk (Adjustment.adjustmentSource a) (Adjustment.type a)
          (Adjustment.description a) (discount_amount l a)
          (discount_amountWithTax l a)).
Proof.
  unfold summary. rewrite filter_snoc. unfold has_source at 3.
  rewrite String.eqb_refl.
  destruct (filter _ pre); [reflexivity | discriminate].
Qed.

Lemma summary_snoc_later (pre : list Adjustment.t) (a : Adjustment.t) (d : Discount.t) :
  summary l (Adjustment.adjustmentSource a) pre = Some d ->
  summary l (Adjustment.adjustmentSource a) (pre ++ [a]) =
  Some (Discount.mk (Discount.adjustmentSource d) (Discount.type d)
          (Discount.description d)
          (add (Discount.amount d) (discount_amount l a))
          (add (Discount.amountWithTax d) (discount_amountWithTax l a))).
Proof.
  unfold summary. rewrite filter_snoc. unfold has_source at 3.
  rewrite String.eqb_refl.
  destruct (filter _ pre) as [|first later]; [discriminate|].
  intros E. injection E as <-. cbn [app Discount.adjustmentSource Discount.type
    Discount.description Discount.amount Discount.amountWithTax].
  rewrite !map_app. cbn [map]. now rewrite !fold_left_snoc.
Qed.

(** After the adjustments [pre], the map holds the sources in first-seen
    order and, under each, the summary of the adjustments of that source. *)
Lemma discounts_loop (pre : list Adjustment.t) :
  let m := fold_left (discounts_step l) pre JSMap.empty in
  JSMap.keys m = first_seen (map Adjustment.adjustmentSource pre) /\
  forall k, JSMap.get k m = summary l k pre.
Proof.
  induction pre as [|a pre [IHk IHg]] using rev_ind; [split; reflexivity|].
  cbv zeta in *. rewrite fold_left_snoc, map_app. cbn [map].
  rewrite first_seen_snoc.
  set (m := fold_left (discounts_step l) pre JSMap.empty) in *.
  unfold discounts_step.
  destruct (JSMap.get (Adjustment.adjustmentSource a) m) as [d|] eqn:Hget.
  - split.
    + rewrite keys_mutate, IHk.
      assert (E : existsb (String.eqb (Adjustment.adjustmentSource a))
                    (first_seen (map Adjustment.adjustmentSource pre)) = true).
      { rewrite <- IHk. destruct (existsb _ _) eqn:E; [reflexivity|].
        apply get_None_keys in E. congruence. }
      now rewrite E.
    + intros k. rewrite get_mutate.
      destruct (String.eqb_spec (Adjustment.adjustmentSource a) k) as [<-|Hne].
      * rewrite Hget. rewrite IHg in Hget.
        now rewrite (summary_snoc_later _ _ _ Hget).
      * rewrite IHg. symmetry. apply summary_snoc_other.
        unfold has_source. now apply String.eqb_neq.
  - split.
    + rewrite keys_set_new by assumption. rewrite IHk.
      apply get_None_keys in Hget. rewrite IHk in Hget. now rewrite Hget.
    + intros k. rewrite get_set.
      destruct (String.eqb_spec (Adjustment.adjustmentSource a) k) as [<-|Hne].
      * rewrite IHg in Hget. now rewrite (summary_snoc_first _ _ Hget).
      * rewrite IHg. symmetry. apply summary_snoc_other.
        unfold has_source. now apply String.eqb_neq.
Qed.

Lemma summary_source (s : string) (adjs : list Adjustment.t) (d : Discount.t) :
  summary l s adjs = Some d -> Discount.adjustmentSource d = s.
Proof.
  unfold summary.
  destruct (filter (has_source s) adjs) as [|first later] eqn:E; [discriminate|].
  intros H. injection H as <-. simpl.
  assert (Hin : In first (filter (has_source s) adjs)) by (rewrite E; now left).
  apply filter_In in Hin. now apply String.eqb_eq.
Qed.

(** The rows the getter returns, one by one. *)
Lemma discounts_rows (adjs : list Adjustment.t) :
  adjustments l = Some adjs ->
  exists ds : list Discount.t,
    discounts l = Normal ds /\
    map Discount.adjustmentSource ds =
      first_seen (map Adjustment.adjustmentSource adjs) /\
    forall d, In d ds -> summary l (Discount.adjustmentSource d) adjs = Some d.
Proof.
  intros Hadjs. unfold discounts. rewrite Hadjs.
  destruct (discounts_loop adjs) as [Hk Hg]. cbv zeta in *.
  set (m := fold_left (discounts_step l) adjs JSMap.empty) in *.
  assert (Hnd : NoDup (JSMap.keys m)) by (rewrite Hk; apply first_seen_NoDup).
  assert (Hrow : forall k d, In (k, d) m -> summary l k adjs = Some d /\
                                            Discount.adjustmentSource d = k).
  { intros k d Hin. apply (get_In_NoDup _ _ _ _ Hnd) in Hin.
    rewrite Hg in Hin. split; [assumption|]. now apply summary_source in Hin. }
  eexists. split; [reflexivity|]. split.
  - rewrite <- Hk. unfold JSMap.values, JSMap.keys. rewrite map_map.
    apply map_ext_in. intros [k d] Hin. now apply Hrow.
  - intros d Hin. unfold JSMap.values in Hin. apply in_map_iff in Hin.
    destruct Hin as ([k d'] & E & Hin). simpl in E. subst d'.
    destruct (Hrow k d Hin) as [Hs Hk']. now rewrite Hk'.
Qed.

End GroupingLoop.

(** *** The discounts getter *)

Lemma sum_numbers_cons (x : number) (xs : list number) :
  sum_numbers (x :: xs) = fold_left add xs x.
Proof. unfold sum_numbers. cbn [fold_left]. now rewrite add_0_l. Qed.

Lemma unitAdjustmentAmount_max (l : OrderLine) (a : Adjustment.t) :
  unitAdjustmentAmount l a =
  mul (div (ofZ (Adjustment.amount a))
         (ofZ (Z.max (orderPlacedQuantity l) (quantity l))))
      (ofZ (quantity l)).
Proof. unfold unitAdjustmentAmount, unit_share. now rewrite Math_max_ofZ. Qed.

(** C5: the getter returns one Discount per distinct [adjustmentSource],
    in first-seen order of the sources; under each source it holds the
    sum, over the adjustments of that source, of
    [(amount / max(orderPlacedQuantity, quantity)) * quantity] converted
    to a tax-exclusive [amount] and a tax-inclusive [amountWithTax]
    according to [listPriceIncludesTax]. *)
Theorem discounts_grouped_by_source (l : OrderLine) (adjs : list Adjustment.t) :
  adjustments l = Some adjs ->
  let share a :=
    mul (div (ofZ (Adjustment.amount a))
           (ofZ (Z.max (orderPlacedQuantity l) (quantity l))))
        (ofZ (quantity l)) in
  let exclusive a :=
    if listPriceIncludesTax l then netPriceOf (share a) (taxRate l) else share a in
  let inclusive a :=
    if listPriceIncludesTax l then share a else grossPriceOf (share a) (taxRate l) in
  exists ds : list Discount.t,
    discounts l = Normal ds /\
    map Discount.adjustmentSource ds =
      first_seen (map Adjustment.adjustmentSource adjs) /\
    NoDup (map Discount.adjustmentSource ds) /\
    (forall s, In s (map Discount.adjustmentSource ds) <->
               In s (map Adjustment.adjustmentSource adjs)) /\
    (forall d, In d ds ->
       Discount.amount d =
         sum_numbers
           (map exclusive (filter (has_source (Discount.adjustmentSource d)) adjs)) /\
       Discount.amountWithTax d =
         sum_numbers
           (map inclusive (filter (has_source (Discount.adjustmentSource d)) adjs))).
Proof.
  intros Hadjs share exclusive inclusive.
  destruct (discounts_rows l adjs Hadjs) as (ds & Hds & Hsrc & Hrow).
  exists ds. split; [exact Hds|]. split; [exact Hsrc|]. split; [|split].
  - rewrite Hsrc. apply first_seen_NoDup.
  - intros s. rewrite Hsrc. apply first_seen_In.
  - intros d Hin. specialize (Hrow d Hin). unfold summary in Hrow.
    destruct (filter (has_source (Discount.adjustmentSource d)) adjs)
      as [|first later]; [discriminate|].
    injection Hrow as <-. cbn [Discount.amount Discount.amountWithTax map].
    rewrite !sum_numbers_cons.
    assert (E1 : forall a, discount_amount l a = exclusive a).
    { intros a. unfold discount_amount, exclusive, share.
      now rewrite unitAdjustmentAmount_max. }
    assert (E2 : forall a, discount_amountWithTax l a = inclusive a).
    { intros a. unfold discount_amountWithTax, inclusive, share.
      now rewrite unitAdjustmentAmount_max. }
    rewrite E1, E2, (map_ext _ _ E1), (map_ext _ _ E2). split; reflexivity.
Qed.

Lemma discounts_grouped_by_source_witness :
  exists ds : list Discount.t,
    discounts scenario_repeated = Normal ds /\
    map Discount.adjustmentSource ds = ["P1"; "O1"]%string.
Proof.
  destruct (discounts_grouped_by_source scenario_repeated _ eq_refl)
    as (ds & Hds & Hsrc & _).
  exists ds. split; [exact Hds | exact Hsrc].
Defined.



(** *** Lines without adjustments *)

(** C8: on a line whose adjustment sequence is empty,
    [discountedUnitPrice] and [proratedUnitPrice] are [unitPrice], their
    with-tax variants are [unitPriceWithTax], and [discounts] is empty;
    after [clearAdjustments()] a line reads, through any getter, as a line
    with the same columns that never had adjustments. *)
Theorem empty_adjustments_neutral :
  (forall l : OrderLine,
     adjustments l = Some [] ->
     discountedUnitPrice l = unitPrice l /\
     proratedUnitPrice l = unitPrice l /\
     discountedUnitPriceWithTax l = unitPriceWithTax l /\
     proratedUnitPriceWithTax l = unitPriceWithTax l /\
     discounts l = Normal []) /\
  (forall l fresh : OrderLine,
     same_columns_but_adjustments l fresh ->
     adjustments fresh = Some [] ->
     forall (A : Type) (read : OrderLine -> A),
       read (clearAdjustments None l) = read fresh).
Proof.
  split.
  - intros l Hadjs.
    unfold discountedUnitPrice, proratedUnitPrice, discountedUnitPriceWithTax,
      proratedUnitPriceWithTax, unitPrice, unitPriceWithTax, discounts.
    rewrite !getAdjustmentsTotal_guard by tauto.
    rewrite add_0_r, Hadjs. repeat split.
  - intros l fresh (Hq & Ho & Hi & Hp & Hf & Ht) Hadjs A read. f_equal.
    destruct l, fresh. simpl in *. unfold clearAdjustments, set_adjustments.
    simpl. congruence.
Qed.

Lemma empty_adjustments_neutral_witness :
  adjustments scenario_plain = Some [] /\
  discountedUnitPrice scenario_plain = unitPrice scenario_plain /\
  discounts (clearAdjustments None scenario_promotion) = discounts scenario_plain.
Proof.
  split; [reflexivity|]. split.
  - apply (proj1 empty_adjustments_neutral scenario_plain). reflexivity.
  - apply (proj2 empty_adjustments_neutral scenario_promotion scenario_plain).
    + repeat split.
    + reflexivity.
Defined.

(** *** Division by zero in the discounts getter *)

Lemma unitAdjustmentAmount_unplaced_zero :
  unitAdjustmentAmount scenario_unplaced_zero P1 = NaN.
Proof.
  unfold unitAdjustmentAmount, unit_share.
  cbn [quantity orderPlacedQuantity scenario_unplaced_zero Adjustment.amount P1].
  rewrite Math_max_ofZ. cbn [Z.max Z.compare].
  unfold ofZ at 1. rewrite div_by_zero. reflexivity.
Qed.

(** C4: the guard of [getAdjustmentsTotal] is missing from [discounts].
    On a line of quantity 0 whose order is not placed
    ([orderPlacedQuantity = 0]) the adjustment total is 0, but the
    Discount's [amount] and [amountWithTax] are [(-200 / 0) * 0 = NaN];
    on a line whose [adjustments] is absent the adjustment total is 0,
    but [discounts] throws a TypeError. *)
Theorem discounts_lacks_guard :
  declared_domain scenario_unplaced_zero /\
  getAdjustmentsTotal scenario_unplaced_zero None = ofZ 0 /\
  discounts scenario_unplaced_zero =
    Normal [Discount.mk "P1" PROMOTION "promotion P1" NaN NaN] /\
  declared_domain scenario_absent /\
  getAdjustmentsTotal scenario_absent None = ofZ 0 /\
  discounts scenario_absent = Throw TypeError.
Proof.
  split; [apply declared_domain_intro; reflexivity|].
  split; [apply getAdjustmentsTotal_guard; left; reflexivity|].
  split.
  - unfold discounts. cbn [adjustments scenario_unplaced_zero fold_left].
    unfold discounts_step. cbn [JSMap.get JSMap.empty JSMap.set JSMap.values map snd].
    unfold discount_amount, discount_amountWithTax.
    rewrite unitAdjustmentAmount_unplaced_zero. reflexivity.
  - split; [apply declared_domain_intro; reflexivity|].
    split; reflexivity.
Qed.

(** A sum of finite numbers is finite. *)
Lemma fold_left_add_finite (xs : list number) (x : number) :
  is_finite x = true ->
  Forall (fun y => is_finite y = true) xs ->
  is_finite (fold_left add xs x) = true.
Proof.
  intros Hx Hxs. revert x Hx.
  induction Hxs as [|y xs Hy _ IH]; intros x Hx; simpl; [assumption|].
  apply IH. destruct x, y; try discriminate; reflexivity.
Qed.

(** X19: away from that corner the rows are finite: on the declared
    input domain with a positive [max(orderPlacedQuantity, quantity)]
    every Discount carries finite amounts. *)
Lemma discounts_finite (l : OrderLine) (adjs : list Adjustment.t) :
  declared_domain l ->
  (0 < Z.max (orderPlacedQuantity l) (quantity l))%Z ->
  adjustments l = Some adjs ->
  exists ds : list Discount.t,
    discounts l = Normal ds /\
    forall d, In d ds ->
      is_finite (Discount.amount d) = true /\
      is_finite (Discount.amountWithTax d) = true.
Proof.
  intros Hdom Hmax Hadjs.
  assert (Hu : forall a, exists q, unitAdjustmentAmount l a = Fin q).
  { intros a. unfold unitAdjustmentAmount.
    rewrite unit_share_Fin by lia. eexists. reflexivity. }
  assert (H1 : forall a, is_finite (discount_amount l a) = true).
  { intros a. unfold discount_amount. destruct (Hu a) as [q ->].
    destruct (listPriceIncludesTax l); [|reflexivity].
    rewrite taxRate_Fin, netPriceOf_Fin by now apply tax_factor_ok.
    reflexivity. }
  assert (H2 : forall a, is_finite (discount_amountWithTax l a) = true).
  { intros a. unfold discount_amountWithTax. destruct (Hu a) as [q ->].
    destruct (listPriceIncludesTax l); [reflexivity|].
    rewrite taxRate_Fin, grossPriceOf_Fin. reflexivity. }
  destruct (discounts_rows l adjs Hadjs) as (ds & Hds & _ & Hrow).
  exists ds. split; [exact Hds|].
  intros d Hin. specialize (Hrow d Hin). unfold summary in Hrow.
  destruct (filter (has_source (Discount.adjustmentSource d)) adjs)
    as [|first later]; [discriminate|].
  injection Hrow as <-. cbn [Discount.amount Discount.amountWithTax].
  split; apply fold_left_add_finite; auto;
    apply Forall_forall; intros y Hy; apply in_map_iff in Hy;
    destruct Hy as (a & <- & _); auto.
Qed.

(** *** The scenarios of spec section 8 *)

Example scenario_plain_figures :
  unitPrice scenario_plain = ofZ 1000 /\
  unitPriceWithTax scenario_plain = ofZ 1200 /\
  linePrice scenario_plain = ofZ 2000 /\
  linePriceWithTax scenario_plain = ofZ 2400 /\
  lineTax scenario_plain = ofZ 400.
Proof.
  assert (U : unitPrice scenario_plain = ofZ 1000) by reflexivity.
  assert (W : unitPriceWithTax scenario_plain = ofZ 1200).
  { unfold unitPriceWithTax, scenario_plain. cbn [listPriceIncludesTax listPrice].
    rewrite taxRate_vat20. unfold ofZ at 1. rewrite grossPriceOf_Fin.
    f_equal. }
  unfold linePrice, linePriceWithTax, lineTax, unitTax. rewrite U, W.
  cbn [quantity scenario_plain]. rewrite sub_ofZ, !mul_ofZ. repeat split.
Qed.

Example scenario_promotion_figures :
  discountedUnitPrice scenario_promotion = ofZ 900 /\
  discountedLinePrice scenario_promotion = ofZ 1800 /\
  discounts scenario_promotion =
    Normal [Discount.mk "P1" PROMOTION "promotion P1" (ofZ (-200)) (ofZ (-240))].
Proof.
  assert (T : getAdjustmentsTotal scenario_promotion (Some PROMOTION) = ofZ (-100)).
  { apply (getAdjustmentsTotal_exact scenario_promotion (Some PROMOTION) [P1]);
      [discriminate | discriminate | reflexivity]. }
  assert (D : discountedUnitPrice scenario_promotion = ofZ 900).
  { unfold discountedUnitPrice. rewrite T.
    cbn [listPriceIncludesTax listPrice scenario_promotion].
    now rewrite add_ofZ. }
  split; [exact D|]. split.
  - unfold discountedLinePrice. rewrite D. cbn [quantity scenario_promotion].
    now rewrite mul_ofZ.
  - assert (S : unitAdjustmentAmount scenario_promotion P1 = ofZ (-200)).
    { unfold unitAdjustmentAmount. rewrite unit_share_Fin by discriminate.
      cbn [quantity orderPlacedQuantity scenario_promotion Adjustment.amount P1].
      unfold ofZ. cbn [mul]. f_equal; apply Qc_is_canon; reflexivity. }
    unfold discounts. cbn [adjustments scenario_promotion fold_left].
    unfold discounts_step.
    cbn [JSMap.get JSMap.empty JSMap.set JSMap.values map snd].
    unfold discount_amount, discount_amountWithTax. rewrite S.
    cbn [listPriceIncludesTax scenario_promotion].
    unfold scenario_promotion. rewrite taxRate_vat20.
    unfold ofZ at 2. rewrite grossPriceOf_Fin. reflexivity.
Qed.

(** With the quantity of the order as placed, the share of an adjustment
    is its whole amount. *)
Lemma unitAdjustmentAmount_placed (l : OrderLine) (a : Adjustment.t) :
  orderPlacedQuantity l = quantity l ->
  quantity l <> 0%Z ->
  unitAdjustmentAmount l a = ofZ (Adjustment.amount a).
Proof.
  intros Ho Hq. unfold unitAdjustmentAmount.
  rewrite unit_share_Fin by (rewrite Ho, Z.max_id; exact Hq).
  rewrite Ho, Z.max_id. unfold ofZ. cbn [mul]. f_equal.
  field. now apply Z2Qc_neq0.
Qed.

Example scenario_repeated_discounts :
  discounts scenario_repeated =
    Normal [Discount.mk "P1" PROMOTION "promotion P1" (ofZ (-250)) (ofZ (-300));
            Discount.mk "O1" DISTRIBUTED_ORDER_PROMOTION "order promotion O1"
              (ofZ (-100)) (ofZ (-120))].
Proof.
  assert (E : forall a, discount_amount scenario_repeated a = ofZ (Adjustment.amount a)).
  { intros a. unfold discount_amount. cbn [listPriceIncludesTax scenario_repeated].
    now apply unitAdjustmentAmount_placed. }
  assert (I : forall a, discount_amountWithTax scenario_repeated a =
                        ofZ (round_half_up (Z2Qc (Adjustment.amount a)
                                            * tax_factor (Q2Qc 20)))).
  { intros a. unfold discount_amountWithTax.
    cbn [listPriceIncludesTax scenario_repeated].
    rewrite unitAdjustmentAmount_placed by (reflexivity || discriminate).
    unfold scenario_repeated. rewrite taxRate_vat20.
    unfold ofZ at 1. now rewrite grossPriceOf_Fin. }
  unfold discounts. cbn [adjustments scenario_repeated fold_left].
  unfold discounts_step. rewrite !E, !I.
  cbn [JSMap.get JSMap.empty JSMap.set JSMap.mutate JSMap.values map snd
       Adjustment.adjustmentSource Adjustment.type Adjustment.description
       Adjustment.amount P1 String.eqb Ascii.eqb Bool.eqb
       Discount.adjustmentSource Discount.type Discount.description
       Discount.amount Discount.amountWithTax].
  rewrite !add_ofZ. reflexivity.
Qed.

(** ** Further properties *)

(** *** How the mutators compose *)

Lemma addAdjustment_Normal (a : Adjustment.t) (l l' : OrderLine) :
  addAdjustment a l = Normal l' ->
  exists adjs, adjustments l = Some adjs /\ l' = set_adjustments l (adjs ++ [a]).
Proof.
  unfold addAdjustment. destruct (adjustments l) as [adjs|]; [|discriminate].
  intros H. exists adjs. split; [reflexivity|]. congruence.
Qed.

Lemma type_kept_snoc (T : AdjustmentType) (adjs : list Adjustment.t) (a : Adjustment.t) :
  filter (fun x => negb (AdjustmentType_eqb (Adjustment.type x) T)) (adjs ++ [a]) =
  filter (fun x => negb (AdjustmentType_eqb (Adjustment.type x) T)) adjs
  ++ (if AdjustmentType_eqb (Adjustment.type a) T then [] else [a]).
Proof.
  rewrite filter_app. simpl.
  now destruct (AdjustmentType_eqb (Adjustment.type a) T).
Qed.

(** X1: clearing the type of an adjustment just added undoes the
    addition; clearing another type commutes with the addition. *)
Theorem clear_after_add (a : Adjustment.t) (T : AdjustmentType) (l l' : OrderLine) :
  addAdjustment a l = Normal l' ->
  (Adjustment.type a = T ->
   clearAdjustments (Some T) l' = clearAdjustments (Some T) l) /\
  (Adjustment.type a <> T ->
   addAdjustment a (clearAdjustments (Some T) l)
   = Normal (clearAdjustments (Some T) l')).
Proof.
  intros H. apply addAdjustment_Normal in H. destruct H as (adjs & Hadjs & ->).
  unfold clearAdjustments, addAdjustment, set_adjustments. simpl.
  rewrite Hadjs, type_kept_snoc. split; intros HT.
  - rewrite (proj2 (AdjustmentType_eqb_eq _ _) HT). now rewrite app_nil_r.
  - destruct (AdjustmentType_eqb (Adjustment.type a) T) eqn:E; [|reflexivity].
    apply AdjustmentType_eqb_eq in E. contradiction.
Qed.

Lemma clear_after_add_witness :
  addAdjustment P1 scenario_plain = Normal scenario_promotion /\
  clearAdjustments (Some PROMOTION) scenario_promotion
  = clearAdjustments (Some PROMOTION) scenario_plain /\
  addAdjustment P1 (clearAdjustments (Some OTHER) scenario_plain)
  = Normal (clearAdjustments (Some OTHER) scenario_promotion).
Proof.
  split; [reflexivity|]. split.
  - apply (proj1 (clear_after_add P1 PROMOTION scenario_plain scenario_promotion
                    eq_refl)).
    reflexivity.
  - apply (proj2 (clear_after_add P1 OTHER scenario_plain scenario_promotion
                    eq_refl)).
    discriminate.
Defined.

Lemma filter_filter_comm {A : Type} (p q : A -> bool) (xs : list A) :
  filter p (filter q xs) = filter q (filter p xs).
Proof.
  induction xs as [|x xs IH]; simpl; [reflexivity|].
  destruct (p x) eqn:Hp, (q x) eqn:Hq; simpl; rewrite ?Hp, ?Hq, IH; reflexivity.
Qed.

(** X2: clearing two types can be done in either order, and clearing
    everything absorbs any other clearing, before or after. *)
Theorem clearAdjustments_compose (l : OrderLine) (T1 T2 : AdjustmentType)
    (type : option AdjustmentType) :
  clearAdjustments (Some T1) (clearAdjustments (Some T2) l)
  = clearAdjustments (Some T2) (clearAdjustments (Some T1) l) /\
  clearAdjustments None (clearAdjustments type l) = clearAdjustments None l /\
  clearAdjustments type (clearAdjustments None l) = clearAdjustments None l.
Proof.
  split; [|split].
  - unfold clearAdjustments, set_adjustments. simpl. f_equal. f_equal.
    destruct (adjustments l) as [adjs|]; [|reflexivity].
    apply filter_filter_comm.
  - destruct type; reflexivity.
  - destruct type; reflexivity.
Qed.

(** X3: [addAdjustment] and [discounts] throw exactly when [adjustments]
    is absent; [clearAdjustments], with a type or without, leaves a line on
    which both succeed. *)
Theorem absent_adjustments_throw (l : OrderLine) (a : Adjustment.t)
    (type : option AdjustmentType) :
  (addAdjustment a l = Throw TypeError <-> adjustments l = None) /\
  (discounts l = Throw TypeError <-> adjustments l = None) /\
  (exists l', addAdjustment a (clearAdjustments type l) = Normal l') /\
  (exists ds, discounts (clearAdjustments type l) = Normal ds).
Proof.
  repeat split.
  - unfold addAdjustment. now destruct (adjustments l).
  - unfold addAdjustment. now intros ->.
  - unfold discounts. now destruct (adjustments l).
  - unfold discounts. now intros ->.
  - destruct type; eexists; reflexivity.
  - destruct type; eexists; reflexivity.
Qed.

Lemma absent_adjustments_throw_witness :
  adjustments scenario_absent = None /\
  addAdjustment P1 scenario_absent = Throw TypeError /\
  discounts scenario_absent = Throw TypeError /\
  (exists l', addAdjustment P1 (clearAdjustments None scenario_absent) = Normal l').
Proof.
  split; [reflexivity|].
  destruct (absent_adjustments_throw scenario_absent P1 None) as (Ha & Hd & Hc & _).
  split; [apply (proj2 Ha); reflexivity|].
  split; [apply (proj2 Hd); reflexivity | exact Hc].
Defined.

(** *** Figures and the adjustments they read *)

Lemma undiscounted_figures_same_columns (l l' : OrderLine) :
  same_columns_but_adjustments l l' ->
  undiscounted_figures l = undiscounted_figures l'.
Proof.
  intros (Hq & Ho & Hi & Hp & Hf & Ht).
  unfold undiscounted_figures, lineTax, linePrice, linePriceWithTax, unitTax,
    unitPriceChangeSinceAdded, unitPriceWithTaxChangeSinceAdded,
    unitPrice, unitPriceWithTax, taxRate.
  now rewrite Hq, Hi, Hp, Hf, Ht.
Qed.

Lemma clearAdjustments_columns (type : option AdjustmentType) (l : OrderLine) :
  same_columns_but_adjustments l (clearAdjustments type l).
Proof. destruct type; repeat split. Qed.

Lemma addAdjustment_columns (a : Adjustment.t) (l l' : OrderLine) :
  addAdjustment a l = Normal l' -> same_columns_but_adjustments l l'.
Proof.
  intros H. apply addAdjustment_Normal in H. destruct H as (adjs & _ & ->).
  repeat split.
Qed.

(** X4: the tax rate and the undiscounted unit and line figures are the
    same before and after [clearAdjustments] and [addAdjustment]. *)
Theorem mutators_keep_undiscounted_figures (l : OrderLine)
    (type : option AdjustmentType) (a : Adjustment.t) :
  undiscounted_figures (clearAdjustments type l) = undiscounted_figures l /\
  (forall l', addAdjustment a l = Normal l' ->
              undiscounted_figures l' = undiscounted_figures l).
Proof.
  split.
  - symmetry. apply undiscounted_figures_same_columns, clearAdjustments_columns.
  - intros l' H. symmetry.
    now apply undiscounted_figures_same_columns, (addAdjustment_columns a).
Qed.

Lemma mutators_keep_undiscounted_figures_witness :
  addAdjustment P1 scenario_plain = Normal scenario_promotion /\
  undiscounted_figures scenario_promotion = undiscounted_figures scenario_plain.
Proof.
  split; [reflexivity|].
  apply (proj2 (mutators_keep_undiscounted_figures scenario_plain None P1)).
  reflexivity.
Defined.

Lemma getAdjustmentsTotal_same_selection (l l' : OrderLine)
    (type : option AdjustmentType) (adjs adjs' : list Adjustment.t) :
  quantity l = quantity l' ->
  orderPlacedQuantity l = orderPlacedQuantity l' ->
  adjustments l = Some adjs ->
  adjustments l' = Some adjs' ->
  filter (type_selected type) adjs = filter (type_selected type) adjs' ->
  getAdjustmentsTotal l type = getAdjustmentsTotal l' type.
Proof.
  intros Hq Ho Ha Ha' Hf. unfold getAdjustmentsTotal.
  rewrite Ha, Ha', Hf, Hq.
  destruct (strict_eq (ofZ (quantity l')) (ofZ 0)); [reflexivity|].
  f_equal. f_equal. apply map_ext. intros a. unfold unit_share.
  now rewrite Hq, Ho.
Qed.

Lemma getAdjustmentsTotal_nothing_selected (l : OrderLine)
    (type : option AdjustmentType) (adjs : list Adjustment.t) :
  adjustments l = Some adjs ->
  filter (type_selected type) adjs = [] ->
  getAdjustmentsTotal l type = ofZ 0.
Proof.
  intros Ha Hf. unfold getAdjustmentsTotal. rewrite Ha, Hf.
  destruct (strict_eq (ofZ (quantity l)) (ofZ 0)); [reflexivity|].
  apply (Math_round_ofZ 0).
Qed.

Lemma discounted_figures_same_total (l l' : OrderLine) :
  same_columns_but_adjustments l l' ->
  getAdjustmentsTotal l (Some PROMOTION) = getAdjustmentsTotal l' (Some PROMOTION) ->
  discounted_figures l = discounted_figures l'.
Proof.
  intros (Hq & Ho & Hi & Hp & Hf & Ht) HT.
  unfold discounted_figures, discountedLinePrice, discountedLinePriceWithTax,
    discountedUnitPrice, discountedUnitPriceWithTax, taxRate.
  now rewrite HT, Hq, Hp, Hf, Ht.
Qed.

Lemma prorated_figures_same_total (l l' : OrderLine) :
  same_columns_but_adjustments l l' ->
  getAdjustmentsTotal l None = getAdjustmentsTotal l' None ->
  prorated_figures l = prorated_figures l'.
Proof.
  intros (Hq & Ho & Hi & Hp & Hf & Ht) HT.
  unfold prorated_figures, proratedLineTax, proratedLinePrice,
    proratedLinePriceWithTax, proratedUnitTax,
    proratedUnitPrice, proratedUnitPriceWithTax, taxRate.
  now rewrite HT, Hq, Hp, Hf, Ht.
Qed.

(** X5: an added adjustment of a type other than PROMOTION changes none
    of the discounted figures. *)
Theorem discounted_figures_ignore_other_types (a : Adjustment.t) (l l' : OrderLine) :
  addAdjustment a l = Normal l' ->
  Adjustment.type a <> PROMOTION ->
  discounted_figures l' = discounted_figures l.
Proof.
  intros H HT. pose proof (addAdjustment_columns a l l' H) as Hc.
  apply addAdjustment_Normal in H. destruct H as (adjs & Hadjs & ->).
  symmetry. apply discounted_figures_same_total; [exact Hc|].
  apply (getAdjustmentsTotal_same_selection l _ (Some PROMOTION) adjs (adjs ++ [a]));
    try reflexivity; try assumption.
  rewrite filter_app. simpl.
  destruct (AdjustmentType_eqb (Adjustment.type a) PROMOTION) eqn:E.
  - apply AdjustmentType_eqb_eq in E. contradiction.
  - now rewrite app_nil_r.
Qed.

Lemma discounted_figures_ignore_other_types_witness :
  addAdjustment
    (Adjustment.mk "O1" DISTRIBUTED_ORDER_PROMOTION "order promotion O1" (-100))
    scenario_promotion
  = Normal (set_adjustments scenario_promotion
              [P1; Adjustment.mk "O1" DISTRIBUTED_ORDER_PROMOTION
                     "order promotion O1" (-100)]) /\
  discounted_figures
    (set_adjustments scenario_promotion
       [P1; Adjustment.mk "O1" DISTRIBUTED_ORDER_PROMOTION
              "order promotion O1" (-100)])
  = discounted_figures scenario_promotion.
Proof.
  split; [reflexivity|].
  apply (discounted_figures_ignore_other_types
           (Adjustment.mk "O1" DISTRIBUTED_ORDER_PROMOTION "order promotion O1" (-100))
           scenario_promotion).
  - reflexivity.
  - discriminate.
Defined.

Lemma filter_selected_after_clear (T T' : AdjustmentType) (adjs : list Adjustment.t) :
  filter (type_selected (Some T'))
    (filter (fun a => negb (AdjustmentType_eqb (Adjustment.type a) T)) adjs) =
  if AdjustmentType_eqb T T' then [] else filter (type_selected (Some T')) adjs.
Proof.
  induction adjs as [|a adjs IH]; simpl.
  - now destruct (AdjustmentType_eqb T T').
  - destruct (AdjustmentType_eqb (Adjustment.type a) T) eqn:E1; simpl.
    + apply AdjustmentType_eqb_eq in E1. rewrite IH, E1.
      destruct (AdjustmentType_eqb T T'); reflexivity.
    + rewrite IH.
      destruct (AdjustmentType_eqb (Adjustment.type a) T') eqn:E2;
        destruct (AdjustmentType_eqb T T') eqn:E3; try reflexivity.
      apply AdjustmentType_eqb_eq in E2, E3. subst.
      rewrite AdjustmentType_eqb_refl in E1. discriminate.
Qed.

(** X6: after [clearAdjustments(T)] the adjustment total of type [T] is 0
    and the total of any other type is what it was; so clearing PROMOTION
    brings the discounted unit prices back to the unit prices, and
    clearing another type leaves the discounted figures as they were. *)
Theorem totals_after_clearAdjustments (l : OrderLine) (T T' : AdjustmentType) :
  getAdjustmentsTotal (clearAdjustments (Some T) l) (Some T')
  = (if AdjustmentType_eqb T T' then ofZ 0 else getAdjustmentsTotal l (Some T')) /\
  discountedUnitPrice (clearAdjustments (Some PROMOTION) l) = unitPrice l /\
  discountedUnitPriceWithTax (clearAdjustments (Some PROMOTION) l)
  = unitPriceWithTax l /\
  (T <> PROMOTION ->
   discounted_figures (clearAdjustments (Some T) l) = discounted_figures l).
Proof.
  assert (G : forall T T',
    getAdjustmentsTotal (clearAdjustments (Some T) l) (Some T')
    = if AdjustmentType_eqb T T' then ofZ 0 else getAdjustmentsTotal l (Some T')).
  { clear T T'. intros T T'.
    destruct (adjustments l) as [adjs|] eqn:Hadjs.
    - destruct (AdjustmentType_eqb T T') eqn:E.
      + eapply getAdjustmentsTotal_nothing_selected.
        * simpl. rewrite Hadjs. reflexivity.
        * now rewrite filter_selected_after_clear, E.
      + apply (getAdjustmentsTotal_same_selection
                 (clearAdjustments (Some T) l) l (Some T')
                 (filter (fun a => negb (AdjustmentType_eqb (Adjustment.type a) T))
                    adjs)
                 adjs); try reflexivity.
        * simpl. rewrite Hadjs. reflexivity.
        * exact Hadjs.
        * now rewrite filter_selected_after_clear, E.
    - rewrite (getAdjustmentsTotal_guard l) by tauto.
      rewrite getAdjustmentsTotal_guard.
      + now destruct (AdjustmentType_eqb T T').
      + right. right. simpl. now rewrite Hadjs. }
  split; [apply G|]. split; [|split].
  - unfold discountedUnitPrice, unitPrice, taxRate. rewrite G.
    cbn [AdjustmentType_eqb clearAdjustments set_adjustments listPrice
         listPriceIncludesTax taxLines].
    now rewrite add_0_r.
  - unfold discountedUnitPriceWithTax, unitPriceWithTax, taxRate. rewrite G.
    cbn [AdjustmentType_eqb clearAdjustments set_adjustments listPrice
         listPriceIncludesTax taxLines].
    now rewrite add_0_r.
  - intros HT. symmetry. apply discounted_figures_same_total.
    + apply clearAdjustments_columns.
    + rewrite G. destruct (AdjustmentType_eqb T PROMOTION) eqn:E; [|reflexivity].
      apply AdjustmentType_eqb_eq in E. contradiction.
Qed.

Lemma totals_after_clearAdjustments_witness :
  OTHER <> PROMOTION /\
  discounted_figures (clearAdjustments (Some OTHER) scenario_repeated)
  = discounted_figures scenario_repeated.
Proof.
  split; [discriminate|].
  apply (proj2 (proj2 (proj2
           (totals_after_clearAdjustments scenario_repeated OTHER PROMOTION)))).
  discriminate.
Defined.

(** X7: when every adjustment of the line is a PROMOTION, the discounted
    unit and line prices are the prorated ones. *)
Theorem discounted_is_prorated (l : OrderLine) (adjs : list Adjustment.t) :
  adjustments l = Some adjs ->
  Forall (fun a => Adjustment.type a = PROMOTION) adjs ->
  discountedUnitPrice l = proratedUnitPrice l /\
  discountedUnitPriceWithTax l = proratedUnitPriceWithTax l /\
  discountedLinePrice l = proratedLinePrice l /\
  discountedLinePriceWithTax l = proratedLinePriceWithTax l.
Proof.
  intros Hadjs Hall.
  assert (T : getAdjustmentsTotal l (Some PROMOTION) = getAdjustmentsTotal l None).
  { unfold getAdjustmentsTotal. rewrite Hadjs.
    replace (filter (type_selected (Some PROMOTION)) adjs)
      with (filter (type_selected None) adjs); [reflexivity|].
    apply filter_ext_in. intros a Hin. rewrite Forall_forall in Hall.
    simpl. rewrite (Hall a Hin). reflexivity. }
  unfold discountedLinePrice, discountedLinePriceWithTax, proratedLinePrice,
    proratedLinePriceWithTax, discountedUnitPrice, discountedUnitPriceWithTax,
    proratedUnitPrice, proratedUnitPriceWithTax.
  rewrite T. repeat split.
Qed.

Lemma discounted_is_prorated_witness :
  adjustments scenario_promotion = Some [P1] /\
  Forall (fun a => Adjustment.type a = PROMOTION) [P1] /\
  discountedUnitPrice scenario_promotion = proratedUnitPrice scenario_promotion.
Proof.
  split; [reflexivity|].
  assert (F : Forall (fun a => Adjustment.type a = PROMOTION) [P1])
    by (repeat constructor).
  split; [exact F|].
  apply (discounted_is_prorated scenario_promotion [P1] eq_refl F).
Defined.

(** The adjustment total reads the quantity through
    [max(orderPlacedQuantity, quantity)] only. *)
Lemma getAdjustmentsTotal_within_placed (l : OrderLine) (q' : Z)
    (type : option AdjustmentType) :
  (0 < quantity l <= orderPlacedQuantity l)%Z ->
  (0 < q' <= orderPlacedQuantity l)%Z ->
  getAdjustmentsTotal (set_quantity l q') type = getAdjustmentsTotal l type.
Proof.
  intros Hq Hq'. unfold getAdjustmentsTotal. cbn [adjustments set_quantity quantity].
  destruct (adjustments l) as [adjs|]; [|reflexivity].
  rewrite !strict_eq_ofZ.
  destruct (Z.eqb_spec q' 0) as [E|_]; [lia|].
  destruct (Z.eqb_spec (quantity l) 0) as [E|_]; [lia|].
  f_equal. f_equal. apply map_ext. intros a. unfold unit_share.
  cbn [orderPlacedQuantity set_quantity quantity].
  rewrite !Math_max_ofZ. now rewrite !Z.max_l by lia.
Qed.

(** X8: on a line whose quantity stays positive and within the quantity
    the order was placed with, changing the quantity changes none of the
    discounted and prorated unit figures. *)
Theorem unit_figures_within_placed_quantity (l : OrderLine) (q' : Z) :
  (0 < quantity l <= orderPlacedQuantity l)%Z ->
  (0 < q' <= orderPlacedQuantity l)%Z ->
  adjusted_unit_figures (set_quantity l q') = adjusted_unit_figures l.
Proof.
  intros Hq Hq'.
  unfold adjusted_unit_figures, proratedUnitTax, discountedUnitPrice,
    discountedUnitPriceWithTax, proratedUnitPrice, proratedUnitPriceWithTax.
  rewrite !getAdjustmentsTotal_within_placed by assumption.
  reflexivity.
Qed.

Lemma unit_figures_within_placed_quantity_witness :
  (0 < quantity scenario_promotion <= orderPlacedQuantity scenario_promotion)%Z /\
  (0 < 1 <= orderPlacedQuantity scenario_promotion)%Z /\
  adjusted_unit_figures scenario_reduced = adjusted_unit_figures scenario_promotion.
Proof.
  assert (H1 : (0 < quantity scenario_promotion
                <= orderPlacedQuantity scenario_promotion)%Z)
    by (split; [reflexivity | discriminate]).
  assert (H2 : (0 < 1 <= orderPlacedQuantity scenario_promotion)%Z)
    by (split; [reflexivity | discriminate]).
  split; [exact H1|]. split; [exact H2|].
  apply (unit_figures_within_placed_quantity scenario_promotion 1 H1 H2).
Defined.

(** *** Prices and taxes *)

Lemma price_figures_integer_witness :
  declared_domain scenario_absent /\
  Forall is_integer
    [unitPrice scenario_absent; unitPriceWithTax scenario_absent;
     unitPriceChangeSinceAdded scenario_absent;
     unitPriceWithTaxChangeSinceAdded scenario_absent;
     discountedUnitPrice scenario_absent; discountedUnitPriceWithTax scenario_absent;
     proratedUnitPrice scenario_absent; proratedUnitPriceWithTax scenario_absent;
     unitTax scenario_absent; proratedUnitTax scenario_absent;
     linePrice scenario_absent; linePriceWithTax scenario_absent;
     discountedLinePrice scenario_absent; discountedLinePriceWithTax scenario_absent;
     lineTax scenario_absent; proratedLinePrice scenario_absent;
     proratedLinePriceWithTax scenario_absent; proratedLineTax scenario_absent].
Proof.
  assert (D : declared_domain scenario_absent)
    by (apply declared_domain_intro; reflexivity).
  split; [exact D | exact (price_figures_integer scenario_absent D)].
Defined.

Lemma line_sum_integer (up wt : number) (q : Z) :
  is_integer up -> is_integer wt ->
  strict_eq (add (mul up (ofZ q)) (mul (sub wt up) (ofZ q))) (mul wt (ofZ q)) = true.
Proof.
  intros [a ->] [b ->]. rewrite sub_ofZ, !mul_ofZ, add_ofZ.
  replace (a * q + (b - a) * q)%Z with (b * q)%Z by ring.
  apply strict_eq_Fin_refl.
Qed.

(** X9: on the declared input domain the line price plus the line tax is
    exactly the line price with tax, undiscounted and prorated. *)
Theorem line_price_plus_tax (l : OrderLine) :
  declared_domain l ->
  strict_eq (add (linePrice l) (lineTax l)) (linePriceWithTax l) = true /\
  strict_eq (add (proratedLinePrice l) (proratedLineTax l))
            (proratedLinePriceWithTax l) = true.
Proof.
  intros Hdom. split.
  - apply line_sum_integer;
      [now apply unitPrice_integer | apply unitPriceWithTax_integer].
  - apply line_sum_integer;
      [now apply proratedUnitPrice_integer | now apply proratedUnitPriceWithTax_integer].
Qed.

Lemma line_price_plus_tax_witness :
  declared_domain scenario_repeated /\
  strict_eq (add (linePrice scenario_repeated) (lineTax scenario_repeated))
            (linePriceWithTax scenario_repeated) = true /\
  strict_eq (add (proratedLinePrice scenario_repeated)
                 (proratedLineTax scenario_repeated))
            (proratedLinePriceWithTax scenario_repeated) = true.
Proof.
  assert (D : declared_domain scenario_repeated)
    by (apply declared_domain_intro; reflexivity).
  split; [exact D | exact (line_price_plus_tax scenario_repeated D)].
Defined.

Lemma sub_integer_self (x : number) : is_integer x -> sub x x = ofZ 0.
Proof. intros [a ->]. rewrite sub_ofZ. f_equal. lia. Qed.

(** X10: on the declared input domain a line whose list price is the one
    it was added with reports no price change, with tax or without. *)
Theorem no_price_change_since_added (l : OrderLine) :
  declared_domain l ->
  initialListPrice l = listPrice l ->
  unitPriceChangeSinceAdded l = ofZ 0 /\
  unitPriceWithTaxChangeSinceAdded l = ofZ 0.
Proof.
  intros Hdom Hi. split.
  - unfold unitPriceChangeSinceAdded. rewrite Hi. fold (unitPrice l).
    apply sub_integer_self. now apply unitPrice_integer.
  - unfold unitPriceWithTaxChangeSinceAdded. rewrite Hi. fold (unitPriceWithTax l).
    apply sub_integer_self. apply unitPriceWithTax_integer.
Qed.

Lemma no_price_change_since_added_witness :
  declared_domain scenario_promotion /\
  initialListPrice scenario_promotion = listPrice scenario_promotion /\
  unitPriceChangeSinceAdded scenario_promotion = ofZ 0 /\
  unitPriceWithTaxChangeSinceAdded scenario_promotion = ofZ 0.
Proof.
  assert (D : declared_domain scenario_promotion)
    by (apply declared_domain_intro; reflexivity).
  split; [exact D|]. split; [reflexivity|].
  exact (no_price_change_since_added scenario_promotion D eq_refl).
Defined.

Lemma round_half_up_mono (p q : Qc) :
  (p <= q)%Qc -> (round_half_up p <= round_half_up q)%Z.
Proof.
  intros H. unfold round_half_up. apply Qfloor_resp_le.
  unfold Qcle in H. lra.
Qed.

Lemma gross_ge (x : Z) (r : Qc) :
  (0 <= x)%Z -> (0 <= r)%Qc ->
  (x <= round_half_up (Z2Qc x * tax_factor r))%Z.
Proof.
  intros Hx Hr. rewrite <- (round_half_up_Z2Qc x) at 1.
  apply round_half_up_mono.
  pose proof (tax_factor_ge_1 r Hr) as Hk.
  apply (proj2 (Z2Qc_le 0 x)) in Hx.
  qc2q. change (inject_Z 0) with 0%Q in Hx.
  generalize dependent (this (tax_factor r)). generalize dependent (inject_Z x).
  intros X HX K HK. nra.
Qed.

Lemma net_le (x : Z) (r : Qc) :
  (0 <= x)%Z -> (0 <= r)%Qc ->
  (round_half_up (Z2Qc x / tax_factor r) <= x)%Z.
Proof.
  intros Hx Hr. rewrite <- (round_half_up_Z2Qc x) at 2.
  apply round_half_up_mono.
  pose proof (tax_factor_ge_1 r Hr) as Hk.
  apply (proj2 (Z2Qc_le 0 x)) in Hx.
  qc2q. change (inject_Z 0) with 0%Q in Hx.
  generalize dependent (this (tax_factor r)). generalize dependent (inject_Z x).
  intros X HX K HK.
  apply Qle_shift_div_r; [lra | nra].
Qed.

(** X11: on the declared input domain a non-negative list price bears a
    non-negative tax, per unit and per line. *)
Theorem tax_not_negative (l : OrderLine) :
  declared_domain l ->
  (0 <= listPrice l)%Z ->
  exists unit line : Z,
    unitTax l = ofZ unit /\ lineTax l = ofZ line /\
    (0 <= unit)%Z /\ (0 <= line)%Z.
Proof.
  intros Hdom Hp.
  pose proof (rate_total_nonneg l Hdom) as Hr.
  destruct Hdom as (Hq & _ & _).
  assert (H : exists unit, unitTax l = ofZ unit /\ (0 <= unit)%Z).
  { unfold unitTax, unitPriceWithTax, unitPrice. rewrite taxRate_Fin.
    destruct (listPriceIncludesTax l).
    - unfold ofZ at 2. rewrite netPriceOf_Fin by now apply tax_factor_neq0.
      rewrite sub_ofZ. eexists. split; [reflexivity|].
      pose proof (net_le (listPrice l) (rate_total l) Hp Hr). lia.
    - unfold ofZ at 1. rewrite grossPriceOf_Fin.
      rewrite sub_ofZ. eexists. split; [reflexivity|].
      pose proof (gross_ge (listPrice l) (rate_total l) Hp Hr). lia. }
  destruct H as (u & Hu & Hu0).
  exists u, (u * quantity l)%Z. unfold lineTax. rewrite Hu, mul_ofZ.
  repeat split; trivial. apply Z.mul_nonneg_nonneg; assumption.
Qed.

Lemma tax_not_negative_witness :
  declared_domain scenario_promotion /\
  (0 <= listPrice scenario_promotion)%Z /\
  exists unit line : Z,
    unitTax scenario_promotion = ofZ unit /\
    lineTax scenario_promotion = ofZ line /\
    (0 <= unit)%Z /\ (0 <= line)%Z.
Proof.
  assert (D : declared_domain scenario_promotion)
    by (apply declared_domain_intro; reflexivity).
  split; [exact D|]. split; [discriminate|].
  apply (tax_not_negative scenario_promotion D). discriminate.
Defined.

Lemma tax_factor_0 : tax_factor 0 = 1%Qc.
Proof. apply Qc_is_canon. reflexivity. Qed.

Lemma netPriceOf_zero_rate (z : Z) : netPriceOf (ofZ z) (ofZ 0) = ofZ z.
Proof.
  unfold ofZ. change (Z2Qc 0) with 0%Qc.
  rewrite netPriceOf_Fin by (rewrite tax_factor_0; discriminate).
  rewrite tax_factor_0.
  replace (Z2Qc z / 1)%Qc with (Z2Qc z) by (field; discriminate).
  now rewrite round_half_up_Z2Qc.
Qed.

Lemma grossPriceOf_zero_rate (z : Z) : grossPriceOf (ofZ z) (ofZ 0) = ofZ z.
Proof.
  unfold ofZ. change (Z2Qc 0) with 0%Qc.
  rewrite grossPriceOf_Fin, tax_factor_0, Qcmult_1_r.
  now rewrite round_half_up_Z2Qc.
Qed.

(** X12: on the declared input domain a line without tax lines has every
    unit price with tax equal to the price without, and no tax. *)
Theorem untaxed_line (l : OrderLine) :
  declared_domain l ->
  taxLines l = [] ->
  unitPriceWithTax l = unitPrice l /\
  discountedUnitPriceWithTax l = discountedUnitPrice l /\
  proratedUnitPriceWithTax l = proratedUnitPrice l /\
  unitTax l = ofZ 0 /\
  proratedUnitTax l = ofZ 0 /\
  lineTax l = ofZ 0 /\
  proratedLineTax l = ofZ 0.
Proof.
  intros Hdom Ht.
  assert (R : taxRate l = ofZ 0) by (unfold taxRate; now rewrite Ht).
  destruct (getAdjustmentsTotal_integer l (Some PROMOTION) Hdom) as [p Hp].
  destruct (getAdjustmentsTotal_integer l None Hdom) as [a Ha].
  assert (U : unitPriceWithTax l = unitPrice l).
  { unfold unitPriceWithTax, unitPrice. rewrite R.
    destruct (listPriceIncludesTax l);
      now rewrite ?netPriceOf_zero_rate, ?grossPriceOf_zero_rate. }
  assert (D : discountedUnitPriceWithTax l = discountedUnitPrice l).
  { unfold discountedUnitPriceWithTax, discountedUnitPrice.
    rewrite R, Hp, add_ofZ.
    destruct (listPriceIncludesTax l);
      now rewrite ?netPriceOf_zero_rate, ?grossPriceOf_zero_rate. }
  assert (P : proratedUnitPriceWithTax l = proratedUnitPrice l).
  { unfold proratedUnitPriceWithTax, proratedUnitPrice.
    rewrite R, Ha, add_ofZ.
    destruct (listPriceIncludesTax l);
      now rewrite ?netPriceOf_zero_rate, ?grossPriceOf_zero_rate. }
  assert (UT : unitTax l = ofZ 0).
  { unfold unitTax. rewrite U. apply sub_integer_self.
    now apply unitPrice_integer. }
  assert (PT : proratedUnitTax l = ofZ 0).
  { unfold proratedUnitTax. rewrite P. apply sub_integer_self.
    now apply proratedUnitPrice_integer. }
  repeat split; trivial.
  - unfold lineTax. rewrite UT, mul_ofZ. reflexivity.
  - unfold proratedLineTax. rewrite PT, mul_ofZ. reflexivity.
Qed.

Lemma untaxed_line_witness :
  declared_domain (mkOrderLine 2 2 1000 1000 true (Some [P1]) []) /\
  unitPriceWithTax (mkOrderLine 2 2 1000 1000 true (Some [P1]) [])
  = unitPrice (mkOrderLine 2 2 1000 1000 true (Some [P1]) []) /\
  lineTax (mkOrderLine 2 2 1000 1000 true (Some [P1]) []) = ofZ 0.
Proof.
  assert (D : declared_domain (mkOrderLine 2 2 1000 1000 true (Some [P1]) []))
    by (apply declared_domain_intro; reflexivity).
  split; [exact D|].
  destruct (untaxed_line (mkOrderLine 2 2 1000 1000 true (Some [P1]) []) D eq_refl)
    as (U & _ & _ & _ & _ & L & _).
  split; [exact U | exact L].
Defined.

(** *** Rows of the discounts getter *)

Lemma fold_left_add_zeros (xs : list number) :
  Forall (fun x => x = ofZ 0) xs -> fold_left add xs (ofZ 0) = ofZ 0.
Proof.
  induction 1 as [|x xs Hx _ IH]; cbn [fold_left]; [reflexivity|].
  subst x. rewrite (add_ofZ 0 0). exact IH.
Qed.

(** X13: on the declared input domain, a line of quantity 0 whose order
    was placed with a positive quantity has every Discount at amount 0,
    with tax and without. *)
Theorem discounts_of_emptied_line (l : OrderLine) (adjs : list Adjustment.t) :
  declared_domain l ->
  quantity l = 0%Z ->
  (0 < orderPlacedQuantity l)%Z ->
  adjustments l = Some adjs ->
  exists ds : list Discount.t,
    discounts l = Normal ds /\
    forall d, In d ds ->
      Discount.amount d = ofZ 0 /\ Discount.amountWithTax d = ofZ 0.
Proof.
  intros Hdom Hq Ho Hadjs.
  assert (Hu : forall a, unitAdjustmentAmount l a = ofZ 0).
  { intros a. unfold unitAdjustmentAmount.
    rewrite unit_share_Fin by lia. rewrite Hq. apply mul_Fin_0. }
  assert (Z0 : forall k : Qc, (Z2Qc 0 / k)%Qc = Z2Qc 0).
  { intros k. change (Z2Qc 0) with 0%Qc. unfold Qcdiv. apply Qcmult_0_l. }
  assert (H1 : forall a, discount_amount l a = ofZ 0).
  { intros a. unfold discount_amount. rewrite Hu.
    destruct (listPriceIncludesTax l); [|reflexivity].
    rewrite taxRate_Fin. unfold ofZ at 1.
    rewrite netPriceOf_Fin by now apply tax_factor_ok.
    now rewrite Z0, round_half_up_Z2Qc. }
  assert (H2 : forall a, discount_amountWithTax l a = ofZ 0).
  { intros a. unfold discount_amountWithTax. rewrite Hu.
    destruct (listPriceIncludesTax l); [reflexivity|].
    rewrite taxRate_Fin. unfold ofZ at 1. rewrite grossPriceOf_Fin.
    change (Z2Qc 0) with 0%Qc. rewrite Qcmult_0_l. reflexivity. }
  destruct (discounts_rows l adjs Hadjs) as (ds & Hds & _ & Hrow).
  exists ds. split; [exact Hds|].
  intros d Hin. specialize (Hrow d Hin). unfold summary in Hrow.
  destruct (filter (has_source (Discount.adjustmentSource d)) adjs)
    as [|first later]; [discriminate|].
  injection Hrow as <-. cbn [Discount.amount Discount.amountWithTax].
  rewrite H1, H2.
  split; apply fold_left_add_zeros, Forall_forall; intros x Hx;
    apply in_map_iff in Hx; destruct Hx as (a & <- & _); auto.
Qed.

Lemma discounts_of_emptied_line_witness :
  declared_domain scenario_emptied /\
  quantity scenario_emptied = 0%Z /\
  (0 < orderPlacedQuantity scenario_emptied)%Z /\
  exists ds : list Discount.t,
    discounts scenario_emptied = Normal ds /\
    forall d, In d ds ->
      Discount.amount d = ofZ 0 /\ Discount.amountWithTax d = ofZ 0.
Proof.
  assert (D : declared_domain scenario_emptied)
    by (apply declared_domain_intro; reflexivity).
  split; [exact D|]. split; [reflexivity|]. split; [reflexivity|].
  apply (discounts_of_emptied_line scenario_emptied [P1] D);
    reflexivity.
Defined.

Lemma discount_shares_same_columns (l l' : OrderLine) (a : Adjustment.t) :
  same_columns_but_adjustments l l' ->
  discount_amount l a = discount_amount l' a /\
  discount_amountWithTax l a = discount_amountWithTax l' a.
Proof.
  intros (Hq & Ho & _ & _ & Hf & Ht).
  unfold discount_amount, discount_amountWithTax, unitAdjustmentAmount,
    unit_share, taxRate.
  now rewrite Hq, Ho, Hf, Ht.
Qed.

Lemma discounts_step_same_columns (l l' : OrderLine)
    (m : JSMap.t Discount.t) (a : Adjustment.t) :
  same_columns_but_adjustments l l' ->
  discounts_step l m a = discounts_step l' m a.
Proof.
  intros H. unfold discounts_step.
  destruct (discount_shares_same_columns l l' a H) as [-> ->]. reflexivity.
Qed.

Lemma fold_discounts_step_same_columns (l l' : OrderLine)
    (adjs : list Adjustment.t) (m : JSMap.t Discount.t) :
  same_columns_but_adjustments l l' ->
  fold_left (discounts_step l) adjs m = fold_left (discounts_step l') adjs m.
Proof.
  intros H. revert m. induction adjs as [|a adjs IH]; intros m; simpl.
  - reflexivity.
  - now rewrite IH, (discounts_step_same_columns l l' m a H).
Qed.

Lemma values_set_new (k : string) (v : Discount.t) (m : JSMap.t Discount.t) :
  JSMap.get k m = None -> JSMap.values (JSMap.set k v m) = JSMap.values m ++ [v].
Proof.
  unfold JSMap.values. induction m as [|[k0 v0] m IH]; simpl; [reflexivity|].
  destruct (String.eqb k0 k); [discriminate|]. intros H. simpl. now rewrite IH.
Qed.

Lemma values_mutate (k : string) (f : Discount.t -> Discount.t)
    (m : JSMap.t Discount.t) :
  keyed m -> NoDup (JSMap.keys m) ->
  JSMap.values (JSMap.mutate k f m) =
  map (fun d => if String.eqb (Discount.adjustmentSource d) k then f d else d)
    (JSMap.values m).
Proof.
  unfold JSMap.values, JSMap.keys, keyed.
  induction m as [|[k0 v0] m IH]; intros Hk Hnd; simpl; [reflexivity|].
  inversion Hnd as [|? ? Hnot Hnd']; subst.
  rewrite (Hk k0 v0) by now left.
  destruct (String.eqb_spec k0 k) as [->|Hne]; simpl.
  - f_equal. symmetry. rewrite <- (map_id (map snd m)) at 1.
    rewrite !map_map. apply map_ext_in. intros [k1 v1] Hin. simpl.
    rewrite (Hk k1 v1) by now right.
    destruct (String.eqb_spec k1 k) as [->|_]; [|reflexivity].
    elim Hnot. change k with (fst (k, v1)). now apply in_map.
  - f_equal. apply IH; [|assumption].
    intros k1 d1 Hin. apply Hk. now right.
Qed.

Lemma loop_keys_NoDup (l : OrderLine) (adjs : list Adjustment.t) :
  NoDup (JSMap.keys (fold_left (discounts_step l) adjs JSMap.empty)).
Proof.
  destruct (discounts_loop l adjs) as [Hk _]. cbv zeta in Hk.
  rewrite Hk. apply first_seen_NoDup.
Qed.

Lemma loop_keyed (l : OrderLine) (adjs : list Adjustment.t) :
  keyed (fold_left (discounts_step l) adjs JSMap.empty).
Proof.
  intros k d Hin.
  apply (get_In_NoDup _ _ _ _ (loop_keys_NoDup l adjs)) in Hin.
  destruct (discounts_loop l adjs) as [_ Hg]. cbv zeta in Hg.
  rewrite Hg in Hin. now apply summary_source in Hin.
Qed.

Lemma keyed_sources (m : JSMap.t Discount.t) :
  keyed m -> map Discount.adjustmentSource (JSMap.values m) = JSMap.keys m.
Proof.
  intros Hk. unfold JSMap.values, JSMap.keys. rewrite map_map.
  apply map_ext_in. intros [k d] Hin. now apply Hk.
Qed.

(** X14: one more adjustment changes the rows of [discounts] in one
    place.  If a row of its source exists, that row, and no other, has
    the share of the adjustment added to both amounts, and keeps its type
    and description; if none exists, a row is opened for it after all
    the others. *)
Theorem discounts_after_add (a : Adjustment.t) (l l' : OrderLine)
    (ds : list Discount.t) :
  addAdjustment a l = Normal l' ->
  discounts l = Normal ds ->
  discounts l' =
  Normal
    (if existsb (String.eqb (Adjustment.adjustmentSource a))
          (map Discount.adjustmentSource ds)
     then map (fun d =>
                 if String.eqb (Discount.adjustmentSource d)
                      (Adjustment.adjustmentSource a)
                 then accumulate l a d else d) ds
     else ds ++ [opening_row l a]).
Proof.
  intros Hadd Hds. pose proof (addAdjustment_columns a l l' Hadd) as Hc.
  apply addAdjustment_Normal in Hadd. destruct Hadd as (adjs & Hadjs & ->).
  unfold discounts in *. rewrite Hadjs in Hds.
  cbn [adjustments set_adjustments].
  rewrite <- (fold_discounts_step_same_columns l _ _ _ Hc), fold_left_snoc.
  injection Hds as <-.
  pose proof (loop_keyed l adjs) as Hk.
  pose proof (loop_keys_NoDup l adjs) as Hnd.
  set (m := fold_left (discounts_step l) adjs JSMap.empty) in *.
  rewrite (keyed_sources m Hk). f_equal. unfold discounts_step.
  destruct (JSMap.get (Adjustment.adjustmentSource a) m) as [d|] eqn:Hget.
  - destruct (existsb _ (JSMap.keys m)) eqn:E.
    + now apply values_mutate.
    + apply get_None_keys in E. congruence.
  - rewrite (proj1 (get_None_keys _ _ _) Hget). now apply values_set_new.
Qed.

Lemma discounts_after_add_witness :
  addAdjustment (Adjustment.mk "P1" OTHER "a later record of P1" (-50))
    (set_adjustments scenario_repeated
       [P1; Adjustment.mk "O1" DISTRIBUTED_ORDER_PROMOTION
              "order promotion O1" (-100)])
  = Normal scenario_repeated /\
  exists ds : list Discount.t,
    discounts (set_adjustments scenario_repeated
                 [P1; Adjustment.mk "O1" DISTRIBUTED_ORDER_PROMOTION
                        "order promotion O1" (-100)]) = Normal ds /\
    map Discount.adjustmentSource ds = ["P1"; "O1"]%string /\
    discounts scenario_repeated =
    Normal
      (map (fun d =>
              if String.eqb (Discount.adjustmentSource d) "P1"
              then accumulate
                     (set_adjustments scenario_repeated
                        [P1; Adjustment.mk "O1" DISTRIBUTED_ORDER_PROMOTION
                               "order promotion O1" (-100)])
                     (Adjustment.mk "P1" OTHER "a later record of P1" (-50)) d
              else d) ds).
Proof.
  split; [reflexivity|].
  eexists. split; [reflexivity|]. split; [reflexivity|].
  apply (discounts_after_add
           (Adjustment.mk "P1" OTHER "a later record of P1" (-50))
           (set_adjustments scenario_repeated
              [P1; Adjustment.mk "O1" DISTRIBUTED_ORDER_PROMOTION
                     "order promotion O1" (-100)])
           scenario_repeated _ eq_refl eq_refl).
Defined.

(** X15: when no two adjustments share a source, [discounts] returns one
    row per adjustment, in the order of the adjustments, each with the
    adjustment's own type, description and share. *)
Theorem discounts_of_distinct_sources (l : OrderLine) (adjs : list Adjustment.t) :
  adjustments l = Some adjs ->
  NoDup (map Adjustment.adjustmentSource adjs) ->
  discounts l = Normal (map (opening_row l) adjs).
Proof.
  intros Hadjs Hnd. unfold discounts. rewrite Hadjs. f_equal. clear Hadjs.
  induction adjs as [|a adjs IH] using rev_ind; [reflexivity|].
  rewrite map_app in Hnd. apply NoDup_app_remove_r in Hnd as Hnd'.
  rewrite fold_left_snoc, map_app. cbn [map].
  destruct (discounts_loop l adjs) as [_ Hg]. cbv zeta in Hg.
  unfold discounts_step at 1. rewrite Hg.
  assert (Hs : summary l (Adjustment.adjustmentSource a) adjs = None).
  { unfold summary.
    destruct (filter _ adjs) as [|first later] eqn:E; [reflexivity|].
    assert (Hin : In first (filter (has_source (Adjustment.adjustmentSource a)) adjs))
      by (rewrite E; now left).
    apply filter_In in Hin. destruct Hin as [Hin Hsrc].
    apply String.eqb_eq in Hsrc.
    apply NoDup_remove_2 in Hnd. elim Hnd. rewrite app_nil_r.
    rewrite <- Hsrc. now apply in_map. }
  rewrite Hs, values_set_new by (now rewrite Hg).
  now rewrite IH.
Qed.

Lemma discounts_of_distinct_sources_witness :
  adjustments scenario_halves
  = Some [Adjustment.mk "P1" PROMOTION "promotion P1" (-1);
          Adjustment.mk "O1" DISTRIBUTED_ORDER_PROMOTION "order promotion O1" (-1)] /\
  discounts scenario_halves =
  Normal (map (opening_row scenario_halves)
            [Adjustment.mk "P1" PROMOTION "promotion P1" (-1);
             Adjustment.mk "O1" DISTRIBUTED_ORDER_PROMOTION
               "order promotion O1" (-1)]).
Proof.
  split; [reflexivity|].
  apply (discounts_of_distinct_sources scenario_halves _ eq_refl).
  repeat constructor; simpl; intuition discriminate.
Defined.

(** *** Discounts lower the prices *)

Lemma int_le_ofZ (a b : Z) : (a <= b)%Z -> int_le (ofZ a) (ofZ b).
Proof. intros H. now exists a, b. Qed.

Lemma netPriceOf_ofZ (x : Z) (r : Qc) :
  tax_factor r <> 0%Qc ->
  netPriceOf (ofZ x) (Fin r) = ofZ (round_half_up (Z2Qc x / tax_factor r)).
Proof. intros H. unfold ofZ at 1. now apply netPriceOf_Fin. Qed.

Lemma grossPriceOf_ofZ (x : Z) (r : Qc) :
  grossPriceOf (ofZ x) (Fin r) = ofZ (round_half_up (Z2Qc x * tax_factor r)).
Proof. unfold ofZ at 1. apply grossPriceOf_Fin. Qed.

Lemma net_mono (x y : Z) (k : Qc) :
  (0 < k)%Qc -> (x <= y)%Z ->
  (round_half_up (Z2Qc x / k) <= round_half_up (Z2Qc y / k))%Z.
Proof.
  intros Hk Hxy. apply round_half_up_mono.
  apply (proj2 (Z2Qc_le x y)) in Hxy. qc2q.
  generalize dependent (this k). generalize dependent (inject_Z y).
  generalize dependent (inject_Z x). intros X Y HXY K HK.
  unfold Qdiv. apply Qmult_le_compat_r; [assumption|].
  apply Qlt_le_weak, Qinv_lt_0_compat. assumption.
Qed.

Lemma gross_mono (x y : Z) (k : Qc) :
  (0 < k)%Qc -> (x <= y)%Z ->
  (round_half_up (Z2Qc x * k) <= round_half_up (Z2Qc y * k))%Z.
Proof.
  intros Hk Hxy. apply round_half_up_mono.
  apply (proj2 (Z2Qc_le x y)) in Hxy. qc2q.
  apply Qmult_le_compat_r; [assumption | now apply Qlt_le_weak].
Qed.

Lemma exact_unit_totals_ordered (l : OrderLine) (adjs : list Adjustment.t) :
  (0 < Z.max (orderPlacedQuantity l) (quantity l))%Z ->
  Forall (fun a => (Adjustment.amount a <= 0)%Z) adjs ->
  (exact_unit_total l None adjs <= exact_unit_total l (Some PROMOTION) adjs)%Qc /\
  (exact_unit_total l (Some PROMOTION) adjs <= 0)%Qc.
Proof.
  intros HM Hall. unfold exact_unit_total.
  set (M := Z.max (orderPlacedQuantity l) (quantity l)) in *.
  assert (Hterm : forall a, (Adjustment.amount a <= 0)%Z ->
                            (Z2Qc (Adjustment.amount a) / Z2Qc M <= 0)%Qc).
  { intros a Ha. apply (proj2 (Z2Qc_le _ 0)) in Ha.
    apply (proj2 (Z2Qc_lt 0 M)) in HM. qc2q.
    change (inject_Z 0) with 0%Q in *.
    apply Qle_shift_div_r; [assumption | lra]. }
  induction Hall as [|a adjs Ha _ [IH1 IH2]]; simpl.
  - split; apply Qcle_refl.
  - specialize (Hterm a Ha).
    destruct (AdjustmentType_eqb (Adjustment.type a) PROMOTION); simpl;
      split; qc2q; lra.
Qed.

Lemma adjustment_totals_ordered (l : OrderLine) :
  declared_domain l ->
  (forall adjs, adjustments l = Some adjs ->
                Forall (fun a => (Adjustment.amount a <= 0)%Z) adjs) ->
  exists promotions all : Z,
    getAdjustmentsTotal l (Some PROMOTION) = ofZ promotions /\
    getAdjustmentsTotal l None = ofZ all /\
    (all <= promotions <= 0)%Z.
Proof.
  intros (Hq & Ho & _) Hall.
  destruct (adjustments l) as [adjs|] eqn:Hadjs.
  - destruct (Z.eq_dec (quantity l) 0) as [E|E].
    + exists 0%Z, 0%Z. rewrite !getAdjustmentsTotal_guard by tauto.
      repeat split; lia.
    + rewrite !(getAdjustmentsTotal_exact l _ adjs) by (assumption || lia).
      eexists. eexists. split; [reflexivity|]. split; [reflexivity|].
      destruct (exact_unit_totals_ordered l adjs) as [H1 H2];
        [lia | now apply Hall |].
      split; [now apply round_half_up_mono|].
      change 0%Z with (round_half_up (Z2Qc 0)).
      now apply round_half_up_mono.
  - exists 0%Z, 0%Z. rewrite !getAdjustmentsTotal_guard by tauto.
    repeat split; lia.
Qed.

(** X17: on the declared input domain, when no adjustment has a positive
    amount, the prorated unit price is at most the discounted unit price
    and the discounted unit price at most the unit price, with tax and
    without. *)
Theorem discounts_lower_prices (l : OrderLine) :
  declared_domain l ->
  (forall adjs, adjustments l = Some adjs ->
                Forall (fun a => (Adjustment.amount a <= 0)%Z) adjs) ->
  int_le (proratedUnitPrice l) (discountedUnitPrice l) /\
  int_le (discountedUnitPrice l) (unitPrice l) /\
  int_le (proratedUnitPriceWithTax l) (discountedUnitPriceWithTax l) /\
  int_le (discountedUnitPriceWithTax l) (unitPriceWithTax l).
Proof.
  intros Hdom Hall.
  destruct (adjustment_totals_ordered l Hdom Hall) as (tp & ta & Hp & Ha & Hle).
  pose proof (tax_factor_ge_1 _ (rate_total_nonneg l Hdom)) as Hk.
  assert (Hk0 : (0 < tax_factor (rate_total l))%Qc).
  { unfold Qclt, Qcle in *. change (this 0%Qc) with 0%Q.
    change (this 1%Qc) with 1%Q in Hk. lra. }
  pose proof (tax_factor_ok l Hdom) as Hne.
  unfold proratedUnitPrice, discountedUnitPrice, unitPrice,
    proratedUnitPriceWithTax, discountedUnitPriceWithTax, unitPriceWithTax.
  rewrite Hp, Ha, !add_ofZ, taxRate_Fin.
  destruct (listPriceIncludesTax l).
  - rewrite !netPriceOf_ofZ by assumption.
    repeat split; apply int_le_ofZ; try lia; apply net_mono; trivial; lia.
  - rewrite !grossPriceOf_ofZ.
    repeat split; apply int_le_ofZ; try lia; apply gross_mono; trivial; lia.
Qed.

Lemma discounts_lower_prices_witness :
  declared_domain scenario_repeated /\
  int_le (proratedUnitPrice scenario_repeated)
         (discountedUnitPrice scenario_repeated) /\
  int_le (discountedUnitPrice scenario_repeated) (unitPrice scenario_repeated).
Proof.
  assert (D : declared_domain scenario_repeated)
    by (apply declared_domain_intro; reflexivity).
  split; [exact D|].
  destruct (discounts_lower_prices scenario_repeated D) as (H1 & H2 & _).
  - intros adjs H. injection H as <-. repeat constructor; discriminate.
  - split; [exact H1 | exact H2].
Defined.

(** *** Finite figures *)

Lemma discounts_finite_witness :
  declared_domain scenario_reduced /\
  (0 < Z.max (orderPlacedQuantity scenario_reduced) (quantity scenario_reduced))%Z /\
  exists ds : list Discount.t,
    discounts scenario_reduced = Normal ds /\
    forall d, In d ds ->
      is_finite (Discount.amount d) = true /\
      is_finite (Discount.amountWithTax d) = true.
Proof.
  assert (D : declared_domain scenario_reduced)
    by (apply declared_domain_intro; reflexivity).
  split; [exact D|]. split; [reflexivity|].
  apply (discounts_finite scenario_reduced [P1] D); reflexivity.
Defined.
